(** * sase: the operator predicate of package [query]

    A shallow embedding of [query/predicate.go]: the helper [leftRightVals],
    the three-valued [PredicateResult], the operator codes and the three
    methods of [operatorPredicate] ([Evaluate], [QueryText], [usedAliases]),
    followed by the properties of the evaluation that the specification
    states.

    Conventions of the embedding
    - a Go [interface{}] holding a resolved value is the tagged union
      [any], restricted to the scalar kinds of the data model;
    - a [float64] is an IEEE-754 datum of [SpecFloat.spec_float], compared
      with [SFcompare]; no arithmetic is performed on it by this file;
    - a Go [(T, error)] return is the type [res T];
    - a nilable interface field is an [option];
    - the seelog sink written by [log.Errorf] is a list of lines threaded
      through the monad [Eff];
    - module [stateful] embeds the same functions once more over a mutable
      heap, for the statements about what an evaluation leaves unchanged. *)

From Stdlib Require Import ZArith NArith List String Ascii Bool Lia.
From Stdlib Require Import SpecFloat DecimalString.
Import ListNotations.

Local Open Scope string_scope.

(* ===================================================================== *)
(** ** Go runtime values *)
(* ===================================================================== *)

Module golang.

(** [float64]: sign, mantissa and exponent, the two infinities, the two
    zeros and NaN. *)
Definition float64 : Type := spec_float.

(** The binary64 format: 53 bits of precision, exponents up to 1024. *)
Definition is_binary64 (f : float64) : bool := valid_binary 53 1024 f.

Definition is_nan (f : float64) : bool :=
  match f with
  | S754_nan => true
  | _ => false
  end.

(** The comparison operators of the language on [float64].  Each is false
    as soon as one side is NaN, since [SFcompare] then answers [None]. *)
Definition float64_eq (a b : float64) : bool := SFeqb a b.
Definition float64_lt (a b : float64) : bool := SFltb a b.
Definition float64_le (a b : float64) : bool := SFleb a b.
Definition float64_gt (a b : float64) : bool :=
  match SFcompare a b with
  | Some Gt => true
  | _ => false
  end.
Definition float64_ge (a b : float64) : bool :=
  match SFcompare a b with
  | Some Gt | Some Eq => true
  | _ => false
  end.

(** The dynamic values an [interface{}] carries here: the untyped [nil]
    and the scalar kinds (boolean, integer, floating point, string). *)
Inductive any : Type :=
| VNil
| VBool (b : bool)
| VInt (n : Z)
| VFloat64 (f : float64)
| VString (s : string).

(** The type assertion [v.(float64)] with its [ok] flag. *)
Definition assert_float64 (v : any) : option float64 :=
  match v with
  | VFloat64 f => Some f
  | _ => None
  end.

(** [reflect.DeepEqual] on scalars: two [nil]s are equal, values of
    different dynamic types are not, and values of one type are compared
    with the [==] of that type. *)
Definition DeepEqual (x y : any) : bool :=
  match x, y with
  | VNil, VNil => true
  | VBool a, VBool b => Bool.eqb a b
  | VInt a, VInt b => Z.eqb a b
  | VFloat64 a, VFloat64 b => float64_eq a b
  | VString a, VString b => String.eqb a b
  | _, _ => false
  end.

(** The [error] interface: the package's sentinel [ErrEventNotFound],
    compared by identity, and any other error with its message. *)
Inductive error : Type :=
| ErrEventNotFound
| errorString (msg : string).

Definition is_ErrEventNotFound (e : error) : bool :=
  match e with
  | ErrEventNotFound => true
  | errorString _ => false
  end.

(** A [(T, error)] result: the error is [nil] exactly in [ok]. *)
Inductive res (T : Type) : Type :=
| ok (v : T)
| fail (err : error).

Arguments ok {T} v.
Arguments fail {T} err.

(** [%v] of an unsigned integer: its decimal digits. *)
Definition fmt_uint (n : N) : string := NilZero.string_of_uint (N.to_uint n).

End golang.

Import golang.

(* ===================================================================== *)
(** ** Diagnostics *)
(* ===================================================================== *)

(** The lines received so far by the logging sink. *)
Definition Sink : Type := list string.

(** Computations that may write to the sink. *)
Definition Eff (A : Type) : Type := Sink -> A * Sink.

Definition ret {A : Type} (a : A) : Eff A := fun s => (a, s).

Definition bind {A B : Type} (m : Eff A) (k : A -> Eff B) : Eff B :=
fun s => let (a, s') := m s in k a s'.

Notation "m ;; k" := (bind m (fun _ => k))
(at level 61, right associativity).

(** [log.Errorf] with its format already expanded: one more line. *)
Definition log_Errorf (line : string) : Eff unit :=
fun s => (tt, (s ++ [line])%list).

(** The value a computation returns from a given sink, and the sink after. *)
Definition result_of {A : Type} (m : Eff A) (s : Sink) : A := fst (m s).
Definition sink_after {A : Type} (m : Eff A) (s : Sink) : Sink := snd (m s).

(* ===================================================================== *)
(** ** Package domain *)
(* ===================================================================== *)

Module domain.

(** Modelled from the spec: the event type of package [domain] is not part
    of this file's source.  An event stores named fields holding runtime
    values. *)
Definition Event : Type := list (string * any).

(** Modelled from the spec: [domain.CapturedEvents] is declared in package
    [domain].  It is an ordered, append-only binding from alias to the
    event captured for it; looking an alias up either yields its event or
    finds none. *)
Definition CapturedEvents : Type := list (string * Event).

Fixpoint assoc {A : Type} (k : string) (l : list (string * A)) : option A :=
  match l with
  | [] => None
  | (k', a) :: tl => if String.eqb k k' then Some a else assoc k tl
  end.

Definition lookup (alias : string) (evs : CapturedEvents) : option Event :=
  assoc alias evs.

Definition absent (alias : string) (evs : CapturedEvents) : Prop :=
  lookup alias evs = None.

(** Copy-on-extend: one more captured event. *)
Definition capture (evs : CapturedEvents) (alias : string) (e : Event)
  : CapturedEvents := (evs ++ [(alias, e)])%list.

End domain.

(* ===================================================================== *)
(** ** Package query *)
(* ===================================================================== *)

Module query.

Import domain.

(** The interfaces of the package.  [Representable] is what renders as
    query text; every expression and predicate reports the aliases it
    reads. *)
Class Representable (T : Type) : Type :=
  { QueryText : T -> string }.

Class AliasReader (T : Type) : Type :=
  { usedAliases : T -> list string }.

(** The [value] interface: an expression resolved against the captured
    events.  Its implementations live in other files of the package, so
    an operand is any triple of methods. *)
Record value : Type := mkValue
  { Value : CapturedEvents -> res any;
    value_QueryText : string;
    value_usedAliases : list string }.

#[export] Instance value_Representable : Representable value :=
  { QueryText := value_QueryText }.

#[export] Instance value_AliasReader : AliasReader value :=
  { usedAliases := value_usedAliases }.

Definition leftRightVals (evs : CapturedEvents) (left right : option value)
  : res (any * any) :=
  match left, right with
  | Some l, Some r =>
      match Value l evs with
      | fail err => fail err
      | ok leftVal =>
          match Value r evs with
          | fail err => fail err
          | ok rightVal => ok (leftVal, rightVal)
          end
      end
  | _, _ => fail (errorString "Left and right must not be nil")
  end.

Inductive PredicateResult : Type :=
| PredicateResultPositive
| PredicateResultNegative
| PredicateResultUncertain.

(** [type op uint8] and its six constants. *)
Definition op : Type := N.

Definition opEq : op := 0%N.
Definition opNe : op := 1%N.
Definition opGt : op := 2%N.
Definition opLt : op := 3%N.
Definition opGe : op := 4%N.
Definition opLe : op := 5%N.

Record operatorPredicate : Type := mkOperatorPredicate
  { p_left : option value;
    p_right : option value;
    p_op : op }.

(** [bytes.Buffer] as the string written so far. *)
Definition Buffer : Type := string.
Definition WriteString (buf : Buffer) (s : string) : Buffer := buf ++ s.
Definition WriteRune (buf : Buffer) (c : ascii) : Buffer :=
  buf ++ String c EmptyString.

Definition opSymbol (buf : Buffer) (o : op) : Buffer :=
  if N.eqb o opEq then WriteString buf "=="
  else if N.eqb o opNe then WriteString buf "!="
  else if N.eqb o opGt then WriteRune buf ">"%char
  else if N.eqb o opLt then WriteRune buf "<"%char
  else if N.eqb o opGe then WriteString buf ">="
  else if N.eqb o opLe then WriteString buf "<="
  else buf.

Definition operatorPredicate_QueryText (p : operatorPredicate) : string :=
  let buf : Buffer := EmptyString in
  let buf :=
    match p_left p with
    | Some l => WriteString buf (QueryText l)
    | None => buf
    end in
  let buf := WriteRune buf " "%char in
  let buf := opSymbol buf (p_op p) in
  let buf :=
    match p_right p with
    | Some r => WriteString (WriteRune buf " "%char) (QueryText r)
    | None => buf
    end in
  buf.

#[export] Instance operatorPredicate_Representable
  : Representable operatorPredicate :=
  { QueryText := operatorPredicate_QueryText }.

Definition operatorPredicate_usedAliases (p : operatorPredicate)
  : list string :=
  let result : list string := [] in
  let result :=
    match p_left p with
    | Some l => (result ++ usedAliases l)%list
    | None => result
    end in
  let result :=
    match p_right p with
    | Some r => (result ++ usedAliases r)%list
    | None => result
    end in
  result.

#[export] Instance operatorPredicate_AliasReader
  : AliasReader operatorPredicate :=
  { usedAliases := operatorPredicate_usedAliases }.

Definition positive_if (b : bool) : Eff PredicateResult :=
  if b then ret PredicateResultPositive else ret PredicateResultNegative.

(** The body shared by the four ordering cases: both values must assert
    to [float64]; otherwise the mismatch is logged under the operator's
    short name and the match is terminated. *)
Definition ordering (p : operatorPredicate) (name : string)
    (cmp : float64 -> float64 -> bool) (leftVal rightVal : any)
  : Eff PredicateResult :=
  match assert_float64 leftVal, assert_float64 rightVal with
  | Some leftVal, Some rightVal => positive_if (cmp leftVal rightVal)
  | _, _ =>
      log_Errorf ("[sase:operatorPredicate] Could not compare " ++ name
                  ++ " for non-float64s: " ++ QueryText p) ;;
      ret PredicateResultNegative
  end.

Definition operatorPredicate_Evaluate (p : operatorPredicate)
    (evs : CapturedEvents) : Eff PredicateResult :=
  match leftRightVals evs (p_left p) (p_right p) with
  | fail ErrEventNotFound => ret PredicateResultUncertain
  | fail (errorString msg) =>
      log_Errorf ("[sase:operatorPredicate] Could not evaluate "
                  ++ QueryText p ++ " left/right: " ++ msg) ;;
      ret PredicateResultNegative
  | ok (leftVal, rightVal) =>
      if N.eqb (p_op p) opEq then
        positive_if (DeepEqual leftVal rightVal)
      else if N.eqb (p_op p) opNe then
        positive_if (negb (DeepEqual leftVal rightVal))
      else if N.eqb (p_op p) opGt then
        ordering p "gt" float64_gt leftVal rightVal
      else if N.eqb (p_op p) opLt then
        ordering p "lt" float64_lt leftVal rightVal
      else if N.eqb (p_op p) opGe then
        ordering p "ge" float64_ge leftVal rightVal
      else if N.eqb (p_op p) opLe then
        ordering p "le" float64_le leftVal rightVal
      else
        log_Errorf ("[sase:operatorPredicate] Unhandled op "
                    ++ fmt_uint (p_op p) ++ " for " ++ QueryText p) ;;
        ret PredicateResultNegative
  end.

(** The [Predicate] interface. *)
Class Predicate (T : Type) `{Representable T} `{AliasReader T} : Type :=
  { Evaluate : T -> CapturedEvents -> Eff PredicateResult }.

#[export] Instance operatorPredicate_Predicate : Predicate operatorPredicate :=
  { Evaluate := operatorPredicate_Evaluate }.

End query.

Import domain query.

(* ===================================================================== *)
(** ** Expressions used as operands *)
(* ===================================================================== *)

(** The nearest [float64] to an integer, to write numeric literals. *)
Definition float64_of_Z (z : Z) : float64 := binary_normalize 53 1024 z 0 false.

Definition NaN : float64 := S754_nan.
Definition pos_zero : float64 := S754_zero false.
Definition neg_zero : float64 := S754_zero true.

(** Modelled from the spec: the literal expression is implemented outside
    [predicate.go].  It resolves to its value under every binding and reads
    no alias. *)
Definition literalValue (v : any) (text : string) : value :=
  mkValue (fun _ => ok v) text [].

(** Modelled from the spec: the field access [alias.field] is implemented
    outside [predicate.go].  It fails with [ErrEventNotFound] when the alias
    has no event yet, reports a field that the event lacks as another error,
    and reads the one alias. *)
Definition attributeValue (alias field : string) : value :=
  mkValue
    (fun evs =>
       match lookup alias evs with
       | None => fail ErrEventNotFound
       | Some ev =>
           match assoc field ev with
           | Some v => ok v
           | None => fail (errorString ("no such field: " ++ field))
           end
       end)
    (alias ++ "." ++ field)
    [alias].

(** The contract of [Value] towards the binding: an expression that reads
    an alias with no event yet fails with [ErrEventNotFound]. *)
Definition honours_binding (v : value) (evs : CapturedEvents) : Prop :=
  (exists a, In a (usedAliases v) /\ absent a evs) ->
  Value v evs = fail ErrEventNotFound.

(* ===================================================================== *)
(** ** Vocabulary of the statements *)
(* ===================================================================== *)

(** The operator table of the specification: the canonical symbol of each
    of the six comparison kinds, and nothing for any other code. *)
Definition canonical_symbol (o : op) : option string :=
  match o with
  | 0%N => Some "=="
  | 1%N => Some "!="
  | 2%N => Some ">"
  | 3%N => Some "<"
  | 4%N => Some ">="
  | 5%N => Some "<="
  | _ => None
  end.

Definition ordering_ops : list op := [opGt; opLt; opGe; opLe].

(** The float64 comparison each ordering operator performs. *)
Definition comparison_of (o : op) : float64 -> float64 -> bool :=
  if N.eqb o opGt then float64_gt
  else if N.eqb o opLt then float64_lt
  else if N.eqb o opGe then float64_ge
  else float64_le.

(** [needle] occurs in [hay]. *)
Definition occurs_in (needle hay : string) : Prop :=
  exists pre post, hay = pre ++ needle ++ post.

Definition exactly_one (A B C : Prop) : Prop :=
  (A /\ ~ B /\ ~ C) \/ (~ A /\ B /\ ~ C) \/ (~ A /\ ~ B /\ C).



(** The text an operand contributes to the rendering, and the aliases it
    contributes to the dependencies: nothing for a nil operand. *)
Definition operand_text (v : option value) : string :=
  match v with
  | Some e => QueryText e
  | None => ""
  end.

Definition operand_aliases (v : option value) : list string :=
  match v with
  | Some e => usedAliases e
  | None => []
  end.

(** A computation whose value does not depend on the sink and whose only
    effect is to add lines at its end. *)
Definition appends_only {A : Type} (m : Eff A) : Prop :=
  exists (a : A) (lines : list string),
    forall s : Sink, m s = (a, (s ++ lines)%list).

(** What a non-nil right operand adds after the operator symbol. *)
Definition right_part (v : option value) : string :=
  match v with
  | Some e => " " ++ QueryText e
  | None => ""
  end.

(** The verdict [Evaluate] gives from the sink [s]. *)
Definition verdict (p : operatorPredicate) (evs : CapturedEvents) (s : Sink)
  : PredicateResult := result_of (Evaluate p evs) s.

(** The lines one evaluation writes, seen from an empty sink. *)
Definition logged (p : operatorPredicate) (evs : CapturedEvents)
  : list string := sink_after (Evaluate p evs) [].

(** The tag every diagnostic of the operator predicate begins with. *)
Definition log_tag : string := "[sase:operatorPredicate] ".

Definition starts_with (pre line : string) : Prop :=
  exists rest, line = pre ++ rest.

(** The shape of a run: a verdict and lines that do not depend on the
    sink, the lines being none, or one tagged line under a
    [PredicateResultNegative] verdict. *)
Definition quiet_or_one_line (m : Eff PredicateResult) : Prop :=
  exists (a : PredicateResult) (lines : list string),
    (forall s : Sink, m s = (a, (s ++ lines)%list)) /\
    (lines = [] \/
     (a = PredicateResultNegative /\ exists rest, lines = [log_tag ++ rest])).

(** The converse of [honours_binding]: an expression fails with
    [ErrEventNotFound] only for an alias of its own that has no event. *)
Definition not_found_means_absent (v : value) (evs : CapturedEvents) : Prop :=
  Value v evs = fail ErrEventNotFound ->
  exists a, In a (usedAliases v) /\ absent a evs.

(** The ways the resolution of the two operands can end in an error. *)
Definition resolution_fails (evs : CapturedEvents) (l r : option value)
    (err : error) : Prop :=
  ((l = None \/ r = None) /\
   err = errorString "Left and right must not be nil") \/
  (exists l' r', l = Some l' /\ r = Some r' /\
     (Value l' evs = fail err \/
      ((exists v, Value l' evs = ok v) /\ Value r' evs = fail err))).

(** An ordering operator applied to values that are not both float64s. *)
Definition type_mismatch (o : op) (lv rv : any) : Prop :=
  In o ordering_ops /\
  (assert_float64 lv = None \/ assert_float64 rv = None).

(* ===================================================================== *)
(** ** Package query, over a mutable heap *)
(* ===================================================================== *)

(** The same functions once more, with nothing assumed of what a call may
    touch.  The predicate is reached through the receiver pointer and read
    from the heap at each field access; the binding is a handle whose
    contents live in the heap; the methods of an operand take the heap and
    give it back, possibly changed; [log.Errorf] changes the heap.  What a
    run does to the predicate and to the binding can then be stated. *)
Module stateful.

(** The [value] interface, as far as [Evaluate] reaches it. *)
Record value (Heap Evs : Type) : Type := mkValue
  { Value : Evs -> Heap -> res any * Heap;
    QueryText : Heap -> string * Heap }.

Arguments mkValue {Heap Evs} _ _.
Arguments Value {Heap Evs} _ _ _.
Arguments QueryText {Heap Evs} _ _.

Record operatorPredicate (Heap Evs : Type) : Type := mkOperatorPredicate
  { p_left : option (value Heap Evs);
    p_right : option (value Heap Evs);
    p_op : op }.

Arguments mkOperatorPredicate {Heap Evs} _ _ _.
Arguments p_left {Heap Evs} _.
Arguments p_right {Heap Evs} _.
Arguments p_op {Heap Evs} _.

(** What the program runs on: heaps, binding handles and predicate
    pointers, the predicate a pointer leads to, the events a handle stands
    for, and the effect of logging one line. *)
Record Machine : Type := mkMachine
  { Heap : Type;
    Evs : Type;
    Ptr : Type;
    load : Ptr -> Heap -> operatorPredicate Heap Evs;
    deref : Evs -> Heap -> CapturedEvents;
    emit : string -> Heap -> Heap }.

Definition leftRightVals (M : Machine) (evs : Evs M)
    (left right : option (value (Heap M) (Evs M))) (h : Heap M)
  : res (any * any) * Heap M :=
  match left, right with
  | Some l, Some r =>
      let (lres, h) := Value l evs h in
      match lres with
      | fail err => (fail err, h)
      | ok leftVal =>
          let (rres, h) := Value r evs h in
          match rres with
          | fail err => (fail err, h)
          | ok rightVal => (ok (leftVal, rightVal), h)
          end
      end
  | _, _ => (fail (errorString "Left and right must not be nil"), h)
  end.

Definition operatorPredicate_QueryText (M : Machine) (p : Ptr M) (h : Heap M)
  : string * Heap M :=
  let buf : Buffer := EmptyString in
  let (buf, h) :=
    match p_left (load M p h) with
    | Some l => let (text, h) := QueryText l h in (WriteString buf text, h)
    | None => (buf, h)
    end in
  let buf := WriteRune buf " "%char in
  let buf := opSymbol buf (p_op (load M p h)) in
  match p_right (load M p h) with
  | Some r =>
      let (text, h) := QueryText r h in
      (WriteString (WriteRune buf " "%char) text, h)
  | None => (buf, h)
  end.

Definition positive_if {H : Type} (b : bool) (h : H) : PredicateResult * H :=
  if b then (PredicateResultPositive, h) else (PredicateResultNegative, h).

Definition ordering (M : Machine) (p : Ptr M) (name : string)
    (cmp : float64 -> float64 -> bool) (leftVal rightVal : any) (h : Heap M)
  : PredicateResult * Heap M :=
  match assert_float64 leftVal, assert_float64 rightVal with
  | Some leftVal, Some rightVal => positive_if (cmp leftVal rightVal) h
  | _, _ =>
      let (text, h) := operatorPredicate_QueryText M p h in
      (PredicateResultNegative,
       emit M ("[sase:operatorPredicate] Could not compare " ++ name
               ++ " for non-float64s: " ++ text) h)
  end.

Definition operatorPredicate_Evaluate (M : Machine) (p : Ptr M) (evs : Evs M)
    (h : Heap M) : PredicateResult * Heap M :=
  let (vals, h) :=
    leftRightVals M evs (p_left (load M p h)) (p_right (load M p h)) h in
  match vals with
  | fail ErrEventNotFound => (PredicateResultUncertain, h)
  | fail (errorString msg) =>
      let (text, h) := operatorPredicate_QueryText M p h in
      (PredicateResultNegative,
       emit M ("[sase:operatorPredicate] Could not evaluate " ++ text
               ++ " left/right: " ++ msg) h)
  | ok (leftVal, rightVal) =>
      if N.eqb (p_op (load M p h)) opEq then
        positive_if (DeepEqual leftVal rightVal) h
      else if N.eqb (p_op (load M p h)) opNe then
        positive_if (negb (DeepEqual leftVal rightVal)) h
      else if N.eqb (p_op (load M p h)) opGt then
        ordering M p "gt" float64_gt leftVal rightVal h
      else if N.eqb (p_op (load M p h)) opLt then
        ordering M p "lt" float64_lt leftVal rightVal h
      else if N.eqb (p_op (load M p h)) opGe then
        ordering M p "ge" float64_ge leftVal rightVal h
      else if N.eqb (p_op (load M p h)) opLe then
        ordering M p "le" float64_le leftVal rightVal h
      else
        let o := p_op (load M p h) in
        let (text, h) := operatorPredicate_QueryText M p h in
        (PredicateResultNegative,
         emit M ("[sase:operatorPredicate] Unhandled op " ++ fmt_uint o
                 ++ " for " ++ text) h)
  end.

(** [h'] holds the same predicate behind [p] and the same events behind
    [evs] as [h]. *)
Definition unchanged (M : Machine) (p : Ptr M) (evs : Evs M)
    (h h' : Heap M) : Prop :=
  load M p h' = load M p h /\ deref M evs h' = deref M evs h.

(** A call that leaves the predicate and the binding as they were. *)
Definition read_only (M : Machine) (p : Ptr M) (evs : Evs M) {A : Type}
    (call : Heap M -> A * Heap M) : Prop :=
  forall h, unchanged M p evs h (snd (call h)).

(** A call whose result is decided by the events of the binding. *)
Definition reads_binding_only (M : Machine) (evs : Evs M) {A : Type}
    (call : Heap M -> A * Heap M) : Prop :=
  forall h1 h2, deref M evs h1 = deref M evs h2 -> fst (call h1) = fst (call h2).

(** An operand that keeps the contract of a value expression: its methods
    leave the predicate and the binding alone, and what it resolves to is
    decided by the events of the binding. *)
Definition well_behaved (M : Machine) (p : Ptr M) (evs : Evs M)
    (v : value (Heap M) (Evs M)) : Prop :=
  read_only M p evs (Value v evs) /\
  read_only M p evs (QueryText v) /\
  reads_binding_only M evs (Value v evs).

(** The machine of the pure embedding: the heap is the sink, a handle is the
    binding itself and a pointer the predicate itself, whose operands are
    the operands of [query] run without effect. *)
Definition lift_value (v : query.value) : value Sink CapturedEvents :=
  mkValue (fun evs h => (query.Value v evs, h))
          (fun h => (query.QueryText v, h)).

Definition lift_predicate (p : query.operatorPredicate)
  : operatorPredicate Sink CapturedEvents :=
  mkOperatorPredicate (option_map lift_value (query.p_left p))
                      (option_map lift_value (query.p_right p))
                      (query.p_op p).

Definition pure_machine : Machine :=
  mkMachine Sink CapturedEvents query.operatorPredicate
            (fun p _ => lift_predicate p)
            (fun evs _ => evs)
            (fun line h => (h ++ [line])%list).

(** A machine whose operands count their calls: the heap holds the events
    of the one binding, a counter and the sink; the one predicate compares
    the field [x] of alias [a] with a literal. *)
Definition counting_heap : Type := CapturedEvents * nat * Sink.

Definition tick (h : counting_heap) : counting_heap :=
  let '(evs, n, sink) := h in (evs, S n, sink).

Definition counting (v : query.value) : value counting_heap unit :=
  mkValue (fun _ h => (query.Value v (fst (fst h)), tick h))
          (fun h => (query.QueryText v, tick h)).

Definition machine_of (l r : value counting_heap unit) (o : op) : Machine :=
  mkMachine counting_heap unit unit
            (fun _ _ => mkOperatorPredicate (Some l) (Some r) o)
            (fun _ h => fst (fst h))
            (fun line h => let '(evs, n, sink) := h in
                           (evs, n, (sink ++ [line])%list)).

Definition counting_machine (l r : query.value) (o : op) : Machine :=
  machine_of (counting l) (counting r) o.

(** An operand outside the contract: it resolves to the number of calls
    made so far, which no event of the binding decides. *)
Definition calls_so_far : value counting_heap unit :=
  mkValue (fun _ h => (ok (VInt (Z.of_nat (snd (fst h)))), tick h))
          (fun h => ("calls", h)).

End stateful.

(* ===================================================================== *)
(** ** Sample expressions, predicates and bindings *)
(* ===================================================================== *)

(** An expression whose resolution fails for a reason of its own. *)
Definition malformed : value :=
  mkValue (fun _ => fail (errorString "malformed expression")) "?" [].

Definition a_x : value := attributeValue "a" "x".
Definition b_x : value := attributeValue "b" "x".
Definition c_x : value := attributeValue "c" "x".

Definition num (z : Z) : any := VFloat64 (float64_of_Z z).

Definition five : value := literalValue (num 5) "5".

Definition pred (l r : value) (o : op) : operatorPredicate :=
  mkOperatorPredicate (Some l) (Some r) o.

Definition no_events : CapturedEvents := [].
Definition a_has (v : any) : CapturedEvents := capture no_events "a" [("x", v)].
Definition a_and_c (v w : any) : CapturedEvents :=
  capture (a_has v) "c" [("x", w)].

(* ===================================================================== *)
(** ** Resolution of the operands *)
(* ===================================================================== *)

Section Resolution.

Variable evs : CapturedEvents.

Lemma leftRightVals_nil (l r : option value) :
  l = None \/ r = None ->
  leftRightVals evs l r = fail (errorString "Left and right must not be nil").
Proof.
  intros [-> | ->]; [reflexivity |].
  destruct l; reflexivity.
Qed.

Lemma leftRightVals_left_fail (l r : value) (err : error) :
  Value l evs = fail err ->
  leftRightVals evs (Some l) (Some r) = fail err.
Proof.
  intros H. unfold leftRightVals. rewrite H. reflexivity.
Qed.

Lemma leftRightVals_right_fail (l r : value) (v : any) (err : error) :
  Value l evs = ok v ->
  Value r evs = fail err ->
  leftRightVals evs (Some l) (Some r) = fail err.
Proof.
  intros Hl Hr. unfold leftRightVals. rewrite Hl, Hr. reflexivity.
Qed.

Lemma leftRightVals_ok (l r : value) (lv rv : any) :
  Value l evs = ok lv ->
  Value r evs = ok rv ->
  leftRightVals evs (Some l) (Some r) = ok (lv, rv).
Proof.
  intros Hl Hr. unfold leftRightVals. rewrite Hl, Hr. reflexivity.
Qed.

Lemma leftRightVals_ok_inv (l r : option value) (lv rv : any) :
  leftRightVals evs l r = ok (lv, rv) ->
  exists l' r', l = Some l' /\ r = Some r' /\
                Value l' evs = ok lv /\ Value r' evs = ok rv.
Proof.
  destruct l as [l' |], r as [r' |]; simpl; try discriminate.
  destruct (Value l' evs) eqn:Hl; try discriminate.
  destruct (Value r' evs) eqn:Hr; try discriminate.
  intros [= <- <-]. exists l', r'. auto.
Qed.

End Resolution.

(* ===================================================================== *)
(** ** Evaluation, by outcome of the resolution *)
(* ===================================================================== *)

Section Outcome.

Variables (p : operatorPredicate) (evs : CapturedEvents) (s : Sink).

Lemma verdict_not_found :
  leftRightVals evs (p_left p) (p_right p) = fail ErrEventNotFound ->
  verdict p evs s = PredicateResultUncertain.
Proof.
  intros H. unfold verdict, result_of. simpl.
  unfold operatorPredicate_Evaluate. rewrite H. reflexivity.
Qed.

Lemma verdict_other_error (err : error) :
  leftRightVals evs (p_left p) (p_right p) = fail err ->
  err <> ErrEventNotFound ->
  verdict p evs s = PredicateResultNegative.
Proof.
  intros H Hne. unfold verdict, result_of. simpl.
  unfold operatorPredicate_Evaluate. rewrite H.
  destruct err as [| msg]; [congruence | reflexivity].
Qed.

End Outcome.

(* ===================================================================== *)
(** ** Unbound aliases and other failures *)
(* ===================================================================== *)

(** C1, as stated, fails: with a left operand that fails for a reason of
    its own and a right operand whose alias is unbound, the resolution of
    the right operand fails with [ErrEventNotFound], yet the verdict is
    [PredicateResultNegative]. *)
Lemma not_found_on_right_after_left_error :
  Value b_x no_events = fail ErrEventNotFound /\
  verdict (pred malformed b_x opEq) no_events [] = PredicateResultNegative.
Proof. split; reflexivity. Qed.

(** C1, amended: with both operands non-nil, if the left operand fails with
    [ErrEventNotFound], or the left operand resolves and the right operand
    fails with [ErrEventNotFound], the verdict is
    [PredicateResultUncertain], whatever the operator. *)
Theorem Evaluate_event_not_found_uncertain :
  forall (l r : value) (o : op) (evs : CapturedEvents) (s : Sink),
    Value l evs = fail ErrEventNotFound \/
    ((exists v, Value l evs = ok v) /\ Value r evs = fail ErrEventNotFound) ->
    verdict (pred l r o) evs s = PredicateResultUncertain.
Proof.
  intros l r o evs s [Hl | [[v Hl] Hr]]; apply verdict_not_found; simpl.
  - now apply leftRightVals_left_fail.
  - now apply leftRightVals_right_fail with (v := v).
Qed.

Lemma Evaluate_event_not_found_uncertain_witness :
  (Value five no_events = fail ErrEventNotFound \/
   ((exists v, Value five no_events = ok v) /\
    Value a_x no_events = fail ErrEventNotFound)) /\
  verdict (pred five a_x opLt) no_events [] = PredicateResultUncertain.
Proof.
  assert (H : Value five no_events = fail ErrEventNotFound \/
              ((exists v, Value five no_events = ok v) /\
               Value a_x no_events = fail ErrEventNotFound)).
  { right. split; [exists (num 5) |]; reflexivity. }
  split; [exact H |].
  exact (Evaluate_event_not_found_uncertain five a_x opLt no_events [] H).
Defined.

(** C2, as stated, fails: with a left operand whose alias is unbound, the
    right operand fails for a reason other than [ErrEventNotFound], yet the
    verdict is [PredicateResultUncertain]. *)
Lemma other_failure_on_right_after_not_found :
  Value a_x no_events = fail ErrEventNotFound /\
  Value malformed no_events = fail (errorString "malformed expression") /\
  errorString "malformed expression" <> ErrEventNotFound /\
  verdict (pred a_x malformed opEq) no_events [] = PredicateResultUncertain.
Proof. repeat split; try reflexivity. discriminate. Qed.

(** C2, amended: when an operand is nil, or the left operand fails with an
    error other than [ErrEventNotFound], or the left operand resolves and
    the right operand fails with such an error, the verdict is
    [PredicateResultNegative], never [PredicateResultUncertain] and never
    [PredicateResultPositive], whatever the operator. *)
Theorem Evaluate_other_failure_negative :
  forall (p : operatorPredicate) (evs : CapturedEvents) (s : Sink),
    p_left p = None \/ p_right p = None \/
    (exists l r msg,
        p_left p = Some l /\ p_right p = Some r /\
        (Value l evs = fail (errorString msg) \/
         ((exists v, Value l evs = ok v) /\
          Value r evs = fail (errorString msg)))) ->
    verdict p evs s = PredicateResultNegative /\
    verdict p evs s <> PredicateResultUncertain /\
    verdict p evs s <> PredicateResultPositive.
Proof.
  intros p evs s H.
  assert (N : verdict p evs s = PredicateResultNegative).
  { destruct H as [H | [H | (l & r & msg & Hl & Hr & H)]].
    - eapply verdict_other_error; [apply leftRightVals_nil; now left | discriminate].
    - eapply verdict_other_error; [apply leftRightVals_nil; now right | discriminate].
    - apply verdict_other_error with (err := errorString msg); [| discriminate].
      rewrite Hl, Hr. destruct H as [H | [[v Hv] H]].
      + now apply leftRightVals_left_fail.
      + now apply leftRightVals_right_fail with (v := v). }
  rewrite N. repeat split; discriminate.
Qed.

Lemma Evaluate_other_failure_negative_witness :
  (p_left (pred five malformed opGt) = None \/
   p_right (pred five malformed opGt) = None \/
   (exists l r msg,
       p_left (pred five malformed opGt) = Some l /\
       p_right (pred five malformed opGt) = Some r /\
       (Value l no_events = fail (errorString msg) \/
        ((exists v, Value l no_events = ok v) /\
         Value r no_events = fail (errorString msg))))) /\
  verdict (pred five malformed opGt) no_events [] = PredicateResultNegative /\
  verdict (mkOperatorPredicate (Some a_x) None opGt) no_events []
  = PredicateResultNegative.
Proof.
  assert (H : p_left (pred five malformed opGt) = None \/
              p_right (pred five malformed opGt) = None \/
              (exists l r msg,
                  p_left (pred five malformed opGt) = Some l /\
                  p_right (pred five malformed opGt) = Some r /\
                  (Value l no_events = fail (errorString msg) \/
                   ((exists v, Value l no_events = ok v) /\
                    Value r no_events = fail (errorString msg))))).
  { right. right. exists five, malformed, "malformed expression".
    split; [reflexivity | split; [reflexivity |]].
    right. split; [exists (num 5) |]; reflexivity. }
  split; [exact H |]. split.
  - exact (proj1 (Evaluate_other_failure_negative
                    (pred five malformed opGt) no_events [] H)).
  - exact (proj1 (Evaluate_other_failure_negative
                    (mkOperatorPredicate (Some a_x) None opGt) no_events []
                    (or_intror (or_introl eq_refl)))).
Defined.

(** C10: the operands are resolved left first and the first failure
    decides.  When the left operand fails, the error of the resolution is
    the left one, the verdict is the same whatever the right operand is, and
    it is [PredicateResultUncertain] for [ErrEventNotFound] and
    [PredicateResultNegative] for any other error. *)
Theorem left_failure_decides :
  forall (l r r' : value) (o : op) (evs : CapturedEvents) (s : Sink)
         (err : error),
    Value l evs = fail err ->
    leftRightVals evs (Some l) (Some r) = fail err /\
    verdict (pred l r o) evs s = verdict (pred l r' o) evs s /\
    verdict (pred l r o) evs s =
      (if is_ErrEventNotFound err then PredicateResultUncertain
       else PredicateResultNegative).
Proof.
  intros l r r' o evs s err Hl.
  assert (V : forall x, verdict (pred l x o) evs s =
                        if is_ErrEventNotFound err then PredicateResultUncertain
                        else PredicateResultNegative).
  { intros x. destruct err as [| msg]; simpl.
    - apply verdict_not_found. now apply leftRightVals_left_fail.
    - apply verdict_other_error with (err := errorString msg);
        [now apply leftRightVals_left_fail | discriminate]. }
  split; [now apply leftRightVals_left_fail |].
  split; [now rewrite !V | apply V].
Qed.

Lemma left_failure_decides_witness :
  (Value malformed no_events = fail (errorString "malformed expression") /\
   Value b_x no_events = fail ErrEventNotFound /\
   verdict (pred malformed b_x opGt) no_events [] = PredicateResultNegative) /\
  (Value a_x no_events = fail ErrEventNotFound /\
   Value malformed no_events = fail (errorString "malformed expression") /\
   verdict (pred a_x malformed opGt) no_events [] = PredicateResultUncertain).
Proof.
  split.
  - split; [reflexivity | split; [reflexivity |]].
    exact (proj2 (proj2 (left_failure_decides malformed b_x b_x opGt no_events []
                           (errorString "malformed expression") eq_refl))).
  - split; [reflexivity | split; [reflexivity |]].
    exact (proj2 (proj2 (left_failure_decides a_x malformed malformed opGt
                           no_events [] ErrEventNotFound eq_refl))).
Defined.

(* ===================================================================== *)
(** ** Comparison of float64 values and deep equality *)
(* ===================================================================== *)

Lemma SFcompare_defined (a b : float64) :
  is_nan a = false -> is_nan b = false -> exists c, SFcompare a b = Some c.
Proof.
  destruct a, b; simpl; try discriminate; intros _ _; eexists; reflexivity.
Qed.

Lemma SFcompare_nan (a b : float64) :
  is_nan a = true \/ is_nan b = true -> SFcompare a b = None.
Proof.
  intros [H | H]; destruct a, b; simpl in *; try discriminate; reflexivity.
Qed.





(* ===================================================================== *)
(** ** Evaluation of resolved operands *)
(* ===================================================================== *)

(** Expose the body of [Evaluate] on a predicate built by [pred]. *)
Ltac enter_Evaluate :=
  unfold verdict, result_of, Evaluate, operatorPredicate_Predicate,
    operatorPredicate_Evaluate, pred;
  cbn [p_left p_right p_op].

Section Resolved.

Variables (l r : value) (evs : CapturedEvents) (s : Sink) (lv rv : any).
Hypothesis Hl : Value l evs = ok lv.
Hypothesis Hr : Value r evs = ok rv.

Let resolved : leftRightVals evs (Some l) (Some r) = ok (lv, rv) :=
  leftRightVals_ok evs l r lv rv Hl Hr.

Lemma verdict_opEq :
  verdict (pred l r opEq) evs s =
    if DeepEqual lv rv then PredicateResultPositive else PredicateResultNegative.
Proof.
  enter_Evaluate. rewrite resolved. simpl. now destruct (DeepEqual lv rv).
Qed.

Lemma verdict_opNe :
  verdict (pred l r opNe) evs s =
    if DeepEqual lv rv then PredicateResultNegative else PredicateResultPositive.
Proof.
  enter_Evaluate. rewrite resolved. simpl. now destruct (DeepEqual lv rv).
Qed.

Lemma verdict_ordering (o : op) :
  In o ordering_ops ->
  verdict (pred l r o) evs s =
    match assert_float64 lv, assert_float64 rv with
    | Some a, Some b =>
        if comparison_of o a b then PredicateResultPositive
        else PredicateResultNegative
    | _, _ => PredicateResultNegative
    end.
Proof.
  intros Ho. enter_Evaluate. rewrite resolved.
  destruct Ho as [<- | [<- | [<- | [<- | []]]]]; simpl;
    unfold ordering, comparison_of; simpl;
    destruct (assert_float64 lv) as [a |]; try reflexivity;
    destruct (assert_float64 rv) as [b |]; try reflexivity;
    match goal with |- context [positive_if ?c] => destruct c end; reflexivity.
Qed.

End Resolved.

(* ===================================================================== *)
(** ** Ordering operators *)
(* ===================================================================== *)

(** C3: under an ordering operator, with both operands resolved, the
    verdict is [PredicateResultPositive] only if both resolved values are
    [float64]s, and it is [PredicateResultNegative] as soon as one of them
    is not. *)
Theorem ordering_needs_float64 :
  forall (p : operatorPredicate) (l r : value) (evs : CapturedEvents)
         (s : Sink) (lv rv : any),
    In (p_op p) ordering_ops ->
    p_left p = Some l -> p_right p = Some r ->
    Value l evs = ok lv -> Value r evs = ok rv ->
    (verdict p evs s = PredicateResultPositive ->
     exists a b, lv = VFloat64 a /\ rv = VFloat64 b) /\
    (assert_float64 lv = None \/ assert_float64 rv = None ->
     verdict p evs s = PredicateResultNegative).
Proof.
  intros [pl pr o] l r evs s lv rv Ho Hpl Hpr Hl Hr.
  simpl in Ho, Hpl, Hpr. subst pl pr.
  change (mkOperatorPredicate (Some l) (Some r) o) with (pred l r o).
  rewrite (verdict_ordering l r evs s lv rv Hl Hr o Ho).
  split.
  - destruct lv; simpl; try discriminate.
    destruct rv; simpl; try discriminate.
    intros _. eauto.
  - intros [H | H]; rewrite H; [| destruct (assert_float64 lv)]; reflexivity.
Qed.

Lemma ordering_needs_float64_witness :
  (In (p_op (pred a_x five opGt)) ordering_ops /\
   p_left (pred a_x five opGt) = Some a_x /\
   p_right (pred a_x five opGt) = Some five /\
   Value a_x (a_has (VString "ten")) = ok (VString "ten") /\
   Value five (a_has (VString "ten")) = ok (num 5)) /\
  (assert_float64 (VString "ten") = None \/ assert_float64 (num 5) = None) /\
  verdict (pred a_x five opGt) (a_has (VString "ten")) []
  = PredicateResultNegative.
Proof.
  assert (Ho : In (p_op (pred a_x five opGt)) ordering_ops)
    by (simpl; left; reflexivity).
  assert (Hm : assert_float64 (VString "ten") = None \/
               assert_float64 (num 5) = None)
    by (left; reflexivity).
  split; [repeat split; try reflexivity; exact Ho |].
  split; [exact Hm |].
  exact (proj2 (ordering_needs_float64 (pred a_x five opGt) a_x five
                  (a_has (VString "ten")) [] (VString "ten") (num 5)
                  Ho eq_refl eq_refl eq_refl eq_refl) Hm).
Defined.

(** C6: for two resolved [float64] operands neither of which is NaN,
    exactly one of [>], [<] and [==] is [PredicateResultPositive]; when one
    of them is NaN, each of [>], [<], [>=] and [<=] is
    [PredicateResultNegative]. *)
Theorem float64_trichotomy :
  forall (l r : value) (evs : CapturedEvents) (s : Sink) (a b : float64),
    Value l evs = ok (VFloat64 a) ->
    Value r evs = ok (VFloat64 b) ->
    (is_nan a = false -> is_nan b = false ->
     exactly_one
       (verdict (pred l r opGt) evs s = PredicateResultPositive)
       (verdict (pred l r opLt) evs s = PredicateResultPositive)
       (verdict (pred l r opEq) evs s = PredicateResultPositive)) /\
    (is_nan a = true \/ is_nan b = true ->
     verdict (pred l r opGt) evs s = PredicateResultNegative /\
     verdict (pred l r opLt) evs s = PredicateResultNegative /\
     verdict (pred l r opGe) evs s = PredicateResultNegative /\
     verdict (pred l r opLe) evs s = PredicateResultNegative).
Proof.
  intros l r evs s a b Hl Hr.
  assert (O : forall o, In o ordering_ops ->
                        verdict (pred l r o) evs s =
                        if comparison_of o a b then PredicateResultPositive
                        else PredicateResultNegative).
  { intros o Ho. now rewrite (verdict_ordering l r evs s _ _ Hl Hr o Ho). }
  assert (E := verdict_opEq l r evs s _ _ Hl Hr). simpl in E.
  split.
  - intros Na Nb. destruct (SFcompare_defined a b Na Nb) as [c Hc].
    rewrite (O opGt), (O opLt), E by (simpl; tauto).
    unfold comparison_of, float64_gt, float64_lt, float64_eq, SFltb, SFeqb.
    simpl. rewrite Hc. unfold exactly_one.
    destruct c; [right; right | right; left | left];
      repeat split; discriminate.
  - intros N. apply SFcompare_nan in N.
    rewrite (O opGt), (O opLt), (O opGe), (O opLe) by (simpl; tauto).
    unfold comparison_of, float64_gt, float64_lt, float64_ge, float64_le,
      SFltb, SFleb.
    simpl. rewrite N. repeat split.
Qed.

Lemma float64_trichotomy_witness :
  (Value a_x (a_has (num 10)) = ok (num 10) /\
   Value five (a_has (num 10)) = ok (num 5) /\
   is_nan (float64_of_Z 10) = false /\ is_nan (float64_of_Z 5) = false) /\
  exactly_one
    (verdict (pred a_x five opGt) (a_has (num 10)) [] = PredicateResultPositive)
    (verdict (pred a_x five opLt) (a_has (num 10)) [] = PredicateResultPositive)
    (verdict (pred a_x five opEq) (a_has (num 10)) [] = PredicateResultPositive).
Proof.
  split; [repeat split; reflexivity |].
  exact (proj1 (float64_trichotomy a_x five (a_has (num 10)) []
                  (float64_of_Z 10) (float64_of_Z 5) eq_refl eq_refl)
               eq_refl eq_refl).
Defined.

(* ===================================================================== *)
(** ** Equality operators *)
(* ===================================================================== *)




(* ===================================================================== *)
(** ** Bindings in which the aliases are absent *)
(* ===================================================================== *)

Lemma literalValue_honours_binding (v : any) (text : string)
      (evs : CapturedEvents) :
  honours_binding (literalValue v text) evs.
Proof. intros [a [[] _]]. Qed.

Lemma attributeValue_honours_binding (alias field : string)
      (evs : CapturedEvents) :
  honours_binding (attributeValue alias field) evs.
Proof.
  intros [a [[<- | []] Ha]]. unfold absent in Ha. simpl. now rewrite Ha.
Qed.

Lemma nonempty_has_member {A : Type} (l : list A) :
  l <> [] -> exists a, In a l.
Proof.
  destruct l as [| a l]; [congruence | intros _; exists a; now left].
Qed.

(** C5, as stated, fails: a predicate over two literals reads no alias, so
    that all its aliases are absent from the empty binding, and its verdict
    is [PredicateResultPositive]. *)
Lemma no_alias_is_not_uncertain :
  usedAliases (pred five five opEq) = [] /\
  (forall a, In a (usedAliases (pred five five opEq)) -> absent a no_events) /\
  verdict (pred five five opEq) no_events [] = PredicateResultPositive.
Proof.
  split; [reflexivity | split; [intros a [] | reflexivity]].
Qed.

(** C5, amended: for a predicate whose operands are non-nil and fail with
    [ErrEventNotFound] on an absent alias, and a binding from which every
    alias the predicate uses is absent, the verdict is
    [PredicateResultUncertain] provided the left operand reads an alias, or
    the left operand resolves and the right operand reads an alias. *)
Theorem absent_aliases_uncertain :
  forall (l r : value) (o : op) (evs : CapturedEvents) (s : Sink),
    honours_binding l evs -> honours_binding r evs ->
    (forall a, In a (usedAliases (pred l r o)) -> absent a evs) ->
    usedAliases l <> [] \/
    ((exists v, Value l evs = ok v) /\ usedAliases r <> []) ->
    verdict (pred l r o) evs s = PredicateResultUncertain.
Proof.
  intros l r o evs s Cl Cr Habs H.
  assert (In_l : forall a, In a (usedAliases l) -> absent a evs).
  { intros a Ha. apply Habs. simpl. unfold operatorPredicate_usedAliases.
    simpl. apply in_or_app. now left. }
  assert (In_r : forall a, In a (usedAliases r) -> absent a evs).
  { intros a Ha. apply Habs. simpl. unfold operatorPredicate_usedAliases.
    simpl. apply in_or_app. now right. }
  apply verdict_not_found. simpl.
  destruct H as [Hne | [[v Hv] Hne]];
    apply nonempty_has_member in Hne; destruct Hne as [a Ha].
  - apply leftRightVals_left_fail, Cl. exists a. auto.
  - apply leftRightVals_right_fail with (v := v); [exact Hv |].
    apply Cr. exists a. auto.
Qed.

Lemma absent_aliases_uncertain_witness :
  (honours_binding a_x no_events /\ honours_binding five no_events /\
   (forall a, In a (usedAliases (pred a_x five opGt)) -> absent a no_events) /\
   (usedAliases a_x <> [] \/
    ((exists v, Value a_x no_events = ok v) /\ usedAliases five <> []))) /\
  verdict (pred a_x five opGt) no_events [] = PredicateResultUncertain.
Proof.
  assert (Cl : honours_binding a_x no_events)
    by (intros _; reflexivity).
  assert (Cr : honours_binding five no_events)
    by (intros [a [[] _]]).
  assert (Habs : forall a, In a (usedAliases (pred a_x five opGt)) ->
                           absent a no_events)
    by (intros a _; reflexivity).
  assert (H : usedAliases a_x <> [] \/
              ((exists v, Value a_x no_events = ok v) /\ usedAliases five <> []))
    by (left; discriminate).
  split; [repeat split; assumption |].
  exact (absent_aliases_uncertain a_x five opGt no_events [] Cl Cr Habs H).
Defined.

(* ===================================================================== *)
(** ** Rendering and alias dependencies *)
(* ===================================================================== *)

Lemma append_nil_r (x : string) : x ++ "" = x.
Proof. induction x as [| c x IH]; simpl; [| rewrite IH]; reflexivity. Qed.

Lemma append_assoc (x y z : string) : (x ++ y) ++ z = x ++ (y ++ z).
Proof. induction x as [| c x IH]; simpl; [| rewrite IH]; reflexivity. Qed.

Lemma canonical_symbol_inv (o : op) (sym : string) :
  canonical_symbol o = Some sym ->
  (o = opEq /\ sym = "==") \/ (o = opNe /\ sym = "!=") \/
  (o = opGt /\ sym = ">") \/ (o = opLt /\ sym = "<") \/
  (o = opGe /\ sym = ">=") \/ (o = opLe /\ sym = "<=").
Proof.
  destruct o as [| [[[] | [] |] | [[] | [] |] |]]; simpl;
    try discriminate; intros [= <-]; tauto.
Qed.

Lemma opSymbol_canonical (buf : Buffer) (o : op) (sym : string) :
  canonical_symbol o = Some sym -> opSymbol buf o = buf ++ sym.
Proof.
  intros H. apply canonical_symbol_inv in H.
  destruct H as [[-> ->] | [[-> ->] | [[-> ->] | [[-> ->] | [[-> ->] | [-> ->]]]]]];
    reflexivity.
Qed.

Lemma opSymbol_unknown (buf : Buffer) (o : op) :
  canonical_symbol o = None -> opSymbol buf o = buf.
Proof.
  destruct o as [| [[[] | [] |] | [[] | [] |] |]]; simpl;
    try discriminate; reflexivity.
Qed.

(** C7: for an operator among the six, the query text is the left text, a
    space, the canonical symbol, then a space and the right text; a nil
    operand contributes no text, so that with a nil right operand the text
    is the left text, a space and the symbol; the symbol occurs in the text
    whatever operands are nil. *)
Theorem QueryText_format :
  forall (p : operatorPredicate) (sym : string),
    canonical_symbol (p_op p) = Some sym ->
    QueryText p = operand_text (p_left p) ++ " " ++ sym ++ right_part (p_right p) /\
    (forall l r, p_left p = Some l -> p_right p = Some r ->
                 QueryText p = QueryText l ++ " " ++ sym ++ " " ++ QueryText r) /\
    (p_right p = None -> QueryText p = operand_text (p_left p) ++ " " ++ sym) /\
    occurs_in sym (QueryText p).
Proof.
  intros [pl pr o] sym Hsym. simpl in Hsym.
  assert (F : QueryText (mkOperatorPredicate pl pr o)
              = operand_text pl ++ " " ++ sym ++ right_part pr).
  { simpl. unfold operatorPredicate_QueryText. simpl.
    rewrite (opSymbol_canonical _ o sym Hsym).
    unfold WriteString, WriteRune.
    destruct pl as [l |], pr as [r |]; simpl;
      rewrite ?append_assoc, ?append_nil_r; reflexivity. }
  split; [exact F |]. simpl p_left. simpl p_right.
  split; [| split].
  - intros l r [= ->] [= ->]. rewrite F. reflexivity.
  - intros ->. rewrite F. simpl. now rewrite append_nil_r.
  - rewrite F. exists (operand_text pl ++ " "), (right_part pr).
    now rewrite append_assoc.
Qed.

Lemma QueryText_format_witness :
  canonical_symbol (p_op (mkOperatorPredicate (Some a_x) None opGe)) = Some ">=" /\
  QueryText (mkOperatorPredicate (Some a_x) None opGe) = "a.x >=" /\
  occurs_in ">=" (QueryText (mkOperatorPredicate None None opGe)).
Proof.
  split; [reflexivity |]. split.
  - exact (proj1 (proj2 (proj2
             (QueryText_format (mkOperatorPredicate (Some a_x) None opGe) ">="
                eq_refl))) eq_refl).
  - exact (proj2 (proj2 (proj2
             (QueryText_format (mkOperatorPredicate None None opGe) ">="
                eq_refl)))).
Defined.

(** C8: the aliases of an operator predicate are those of the left operand
    followed by those of the right operand, a nil operand contributing
    none, and every alias is kept as many times as the operands list it. *)
Theorem usedAliases_concatenation :
  forall (p : operatorPredicate),
    usedAliases p = (operand_aliases (p_left p) ++ operand_aliases (p_right p))%list /\
    (forall l r, p_left p = Some l -> p_right p = Some r ->
                 usedAliases p = (usedAliases l ++ usedAliases r)%list) /\
    (p_left p = None -> usedAliases p = operand_aliases (p_right p)) /\
    (p_right p = None -> usedAliases p = operand_aliases (p_left p)) /\
    (forall a, count_occ string_dec (usedAliases p) a =
               count_occ string_dec (operand_aliases (p_left p)) a +
               count_occ string_dec (operand_aliases (p_right p)) a) /\
    List.length (usedAliases p) =
      List.length (operand_aliases (p_left p)) +
      List.length (operand_aliases (p_right p)).
Proof.
  intros [pl pr o].
  assert (F : usedAliases (mkOperatorPredicate pl pr o)
              = (operand_aliases pl ++ operand_aliases pr)%list).
  { simpl. unfold operatorPredicate_usedAliases. simpl.
    destruct pl, pr; simpl; rewrite ?app_nil_r; reflexivity. }
  simpl p_left. simpl p_right. rewrite F.
  split; [reflexivity |].
  split; [intros l r [= ->] [= ->]; reflexivity |].
  split; [intros ->; reflexivity |].
  split; [intros ->; simpl; now rewrite app_nil_r |].
  split; [intros a; apply count_occ_app | apply length_app].
Qed.

Lemma usedAliases_concatenation_witness :
  p_left (pred a_x a_x opEq) = Some a_x /\
  p_right (pred a_x a_x opEq) = Some a_x /\
  usedAliases (pred a_x a_x opEq) = ["a"; "a"].
Proof.
  split; [reflexivity | split; [reflexivity |]].
  exact (proj1 (proj2 (usedAliases_concatenation (pred a_x a_x opEq)))
           a_x a_x eq_refl eq_refl).
Defined.

(* ===================================================================== *)
(** ** Evaluation and the logging sink *)
(* ===================================================================== *)

Lemma ret_appends_only {A : Type} (a : A) : appends_only (ret a).
Proof.
  exists a, []. intros s. unfold ret. now rewrite app_nil_r.
Qed.

Lemma log_then_ret_appends_only {A : Type} (line : string) (a : A) :
  appends_only (log_Errorf line ;; ret a).
Proof. exists a, [line]. intros s. reflexivity. Qed.

Lemma positive_if_appends_only (b : bool) : appends_only (positive_if b).
Proof. destruct b; apply ret_appends_only. Qed.

Lemma ordering_appends_only (p : operatorPredicate) (name : string)
      (cmp : float64 -> float64 -> bool) (lv rv : any) :
  appends_only (ordering p name cmp lv rv).
Proof.
  unfold ordering.
  destruct (assert_float64 lv); [destruct (assert_float64 rv) |];
    first [apply positive_if_appends_only | apply log_then_ret_appends_only].
Qed.

Lemma Evaluate_appends_only (p : operatorPredicate) (evs : CapturedEvents) :
  appends_only (Evaluate p evs).
Proof.
  unfold Evaluate, operatorPredicate_Predicate, operatorPredicate_Evaluate.
  destruct (leftRightVals evs (p_left p) (p_right p)) as [[lv rv] | [| msg]].
  - repeat match goal with
           | |- appends_only (if ?c then _ else _) => destruct c
           end;
      first [apply positive_if_appends_only
            | apply ordering_appends_only
            | apply log_then_ret_appends_only].
  - apply ret_appends_only.
  - apply log_then_ret_appends_only.
Qed.

(** In the pure embedding the sink is the only state: the verdict does not
    depend on it and lines are only added at its end. *)
Lemma Evaluate_sink_independent :
  forall (p : operatorPredicate) (evs : CapturedEvents) (s1 s2 : Sink),
    verdict p evs s1 = verdict p evs s2 /\
    verdict p evs (sink_after (Evaluate p evs) s1) = verdict p evs s1 /\
    (exists lines, forall s,
        sink_after (Evaluate p evs) s = (s ++ lines)%list).
Proof.
  intros p evs s1 s2.
  destruct (Evaluate_appends_only p evs) as (a & lines & H).
  unfold verdict, result_of, sink_after. rewrite !H. simpl.
  split; [reflexivity | split; [reflexivity |]].
  exists lines. intros s. now rewrite H.
Qed.

(* ===================================================================== *)
(** ** The scenarios of the specification *)
(* ===================================================================== *)

Example scenario_unbound :
  verdict (pred a_x five opGt) no_events [] = PredicateResultUncertain.
Proof. reflexivity. Qed.

Example scenario_greater :
  verdict (pred a_x five opGt) (a_has (num 10)) [] = PredicateResultPositive.
Proof. reflexivity. Qed.

Example scenario_smaller :
  verdict (pred a_x five opGt) (a_has (num 3)) [] = PredicateResultNegative.
Proof. reflexivity. Qed.

Example scenario_not_numeric :
  Evaluate (pred a_x five opGt) (a_has (VString "ten")) [] =
    (PredicateResultNegative,
     ["[sase:operatorPredicate] Could not compare gt for non-float64s: a.x > 5"]).
Proof. reflexivity. Qed.

Example scenario_two_aliases :
  verdict (pred a_x c_x opEq) (a_and_c (num 5) (num 5)) []
  = PredicateResultPositive.
Proof. reflexivity. Qed.

Example scenario_nil_right :
  Evaluate (mkOperatorPredicate (Some a_x) None opGt) (a_has (num 10)) [] =
    (PredicateResultNegative,
     ["[sase:operatorPredicate] Could not evaluate a.x > left/right: Left and right must not be nil"]) /\
  QueryText (mkOperatorPredicate (Some a_x) None opGt) = "a.x >".
Proof. split; reflexivity. Qed.

Example scenario_unhandled_op :
  Evaluate (pred a_x five 6%N) (a_has (num 10)) [] =
    (PredicateResultNegative,
     ["[sase:operatorPredicate] Unhandled op 6 for a.x  5"]).
Proof. reflexivity. Qed.

Example sample_numbers_are_binary64 :
  is_binary64 (float64_of_Z 3) = true /\ is_binary64 (float64_of_Z 5) = true /\
  is_binary64 (float64_of_Z 10) = true /\ is_binary64 NaN = true /\
  is_binary64 pos_zero = true /\ is_binary64 neg_zero = true.
Proof. repeat split; reflexivity. Qed.

(* ===================================================================== *)
(** ** The resolution step, characterised *)
(* ===================================================================== *)

Lemma leftRightVals_fail_inv (evs : CapturedEvents) (l r : option value)
      (err : error) :
  leftRightVals evs l r = fail err -> resolution_fails evs l r err.
Proof.
  unfold resolution_fails.
  destruct l as [l' |], r as [r' |]; simpl;
    try (intros [= <-]; left; split; [tauto | reflexivity]).
  destruct (Value l' evs) as [lv | e] eqn:Hl.
  - destruct (Value r' evs) as [rv | e] eqn:Hr; [discriminate |].
    intros [= <-]. right. exists l', r'. repeat split.
    right. split; [now exists lv | exact Hr].
  - intros [= <-]. right. exists l', r'. repeat split. now left.
Qed.

Lemma leftRightVals_fail_intro (evs : CapturedEvents) (l r : option value)
      (err : error) :
  resolution_fails evs l r err -> leftRightVals evs l r = fail err.
Proof.
  intros [[Hnil ->] | (l' & r' & -> & -> & H)].
  - now apply leftRightVals_nil.
  - destruct H as [Hl | [[v Hl] Hr]].
    + now apply leftRightVals_left_fail.
    + now apply leftRightVals_right_fail with (v := v).
Qed.

(** X1: [leftRightVals] succeeds exactly when both operands are non-nil and
    both resolve, with the two resolved values; it fails exactly with the
    nil-operand error when an operand is nil, else with the error of the
    left operand, else with the error of the right operand. *)
Theorem leftRightVals_characterised :
  forall (evs : CapturedEvents) (l r : option value),
    (forall lv rv,
        leftRightVals evs l r = ok (lv, rv) <->
        exists l' r', l = Some l' /\ r = Some r' /\
                      Value l' evs = ok lv /\ Value r' evs = ok rv) /\
    (forall err,
        leftRightVals evs l r = fail err <-> resolution_fails evs l r err).
Proof.
  intros evs l r. split.
  - intros lv rv. split.
    + apply leftRightVals_ok_inv.
    + intros (l' & r' & -> & -> & Hl & Hr). now apply leftRightVals_ok.
  - intros err. split;
      [apply leftRightVals_fail_inv | apply leftRightVals_fail_intro].
Qed.

(* ===================================================================== *)
(** ** Verdicts, by operator *)
(* ===================================================================== *)

Lemma op_known_or_not (o : op) :
  (exists sym, canonical_symbol o = Some sym) \/
  (canonical_symbol o = None /\
   N.eqb o opEq = false /\ N.eqb o opNe = false /\ N.eqb o opGt = false /\
   N.eqb o opLt = false /\ N.eqb o opGe = false /\ N.eqb o opLe = false).
Proof.
  destruct o as [| [[[] | [] |] | [[] | [] |] |]]; simpl;
    first [left; eexists; reflexivity | right; repeat split; reflexivity].
Qed.

(** The run of [Evaluate] on a predicate with an unknown operator code and
    resolved operands. *)
Lemma Evaluate_unknown_op (p : operatorPredicate) (evs : CapturedEvents)
      (s : Sink) (lv rv : any) :
  canonical_symbol (p_op p) = None ->
  leftRightVals evs (p_left p) (p_right p) = ok (lv, rv) ->
  Evaluate p evs s =
    (PredicateResultNegative,
     (s ++ [("[sase:operatorPredicate] Unhandled op " ++ fmt_uint (p_op p)
             ++ " for " ++ QueryText p)%string])%list).
Proof.
  intros Hu Hres.
  destruct (op_known_or_not (p_op p)) as [[sym Hs] | (_ & E1 & E2 & E3 & E4 & E5 & E6)];
    [congruence |].
  unfold Evaluate, operatorPredicate_Predicate, operatorPredicate_Evaluate.
  rewrite Hres, E1, E2, E3, E4, E5, E6. reflexivity.
Qed.

(** With resolved operands the verdict is never [PredicateResultUncertain]. *)
Lemma verdict_resolved_decided (p : operatorPredicate) (evs : CapturedEvents)
      (s : Sink) (lv rv : any) :
  leftRightVals evs (p_left p) (p_right p) = ok (lv, rv) ->
  verdict p evs s <> PredicateResultUncertain.
Proof.
  intros Hres. unfold verdict, result_of, Evaluate, operatorPredicate_Predicate,
    operatorPredicate_Evaluate.
  rewrite Hres.
  repeat match goal with
         | |- context [if ?c then _ else _] => destruct c
         end;
    unfold ordering, positive_if;
    repeat match goal with
           | |- context [match assert_float64 ?v with _ => _ end] =>
               destruct (assert_float64 v)
           | |- context [if ?c then _ else _] => destruct c
           end;
    simpl; discriminate.
Qed.

(** X2: the verdict is [PredicateResultUncertain] exactly when the
    resolution ends in [ErrEventNotFound], that is when both operands are
    non-nil and the left one fails with it, or the left one resolves and the
    right one fails with it; no operator and no value gives this verdict. *)
Theorem uncertain_iff_event_not_found :
  forall (p : operatorPredicate) (evs : CapturedEvents) (s : Sink),
    verdict p evs s = PredicateResultUncertain <->
    exists l r, p_left p = Some l /\ p_right p = Some r /\
      (Value l evs = fail ErrEventNotFound \/
       ((exists v, Value l evs = ok v) /\
        Value r evs = fail ErrEventNotFound)).
Proof.
  intros p evs s. split.
  - intros Hu.
    destruct (leftRightVals evs (p_left p) (p_right p)) as [[lv rv] | err] eqn:Hres.
    + now apply verdict_resolved_decided with (s := s) in Hres.
    + destruct err as [| msg].
      * apply leftRightVals_fail_inv in Hres.
        destruct Hres as [[_ Habs] | H]; [discriminate | exact H].
      * rewrite (verdict_other_error p evs s _ Hres) in Hu by discriminate.
        discriminate.
  - intros (l & r & Hl & Hr & H). apply verdict_not_found. rewrite Hl, Hr.
    destruct H as [H | [[v Hv] H]].
    + now apply leftRightVals_left_fail.
    + now apply leftRightVals_right_fail with (v := v).
Qed.

(** X3: a [PredicateResultPositive] verdict requires both operands to be
    non-nil and to resolve, and the operator to be one of the six. *)
Theorem positive_needs_resolution_and_operator :
  forall (p : operatorPredicate) (evs : CapturedEvents) (s : Sink),
    verdict p evs s = PredicateResultPositive ->
    exists l r lv rv sym,
      p_left p = Some l /\ p_right p = Some r /\
      Value l evs = ok lv /\ Value r evs = ok rv /\
      canonical_symbol (p_op p) = Some sym.
Proof.
  intros p evs s Hp.
  destruct (leftRightVals evs (p_left p) (p_right p)) as [[lv rv] | err] eqn:Hres.
  - destruct (leftRightVals_ok_inv evs _ _ _ _ Hres) as (l & r & Hl & Hr & Vl & Vr).
    destruct (op_known_or_not (p_op p)) as [[sym Hs] | [Hu _]].
    + exists l, r, lv, rv, sym. auto.
    + unfold verdict, result_of in Hp.
      rewrite (Evaluate_unknown_op p evs s lv rv Hu Hres) in Hp. discriminate.
  - destruct err as [| msg].
    + rewrite (verdict_not_found p evs s Hres) in Hp. discriminate.
    + rewrite (verdict_other_error p evs s _ Hres) in Hp by discriminate.
      discriminate.
Qed.

Lemma positive_needs_resolution_and_operator_witness :
  verdict (pred a_x five opGt) (a_has (num 10)) [] = PredicateResultPositive /\
  exists l r lv rv sym,
    p_left (pred a_x five opGt) = Some l /\
    p_right (pred a_x five opGt) = Some r /\
    Value l (a_has (num 10)) = ok lv /\ Value r (a_has (num 10)) = ok rv /\
    canonical_symbol (p_op (pred a_x five opGt)) = Some sym.
Proof.
  split; [reflexivity |].
  exact (positive_needs_resolution_and_operator
           (pred a_x five opGt) (a_has (num 10)) [] eq_refl).
Defined.

(** X4: for an operator code outside the six and operands that resolve,
    whatever their values, the verdict is [PredicateResultNegative] and one
    line naming the code and the query text is logged. *)
Theorem unknown_operator_negative :
  forall (p : operatorPredicate) (l r : value) (evs : CapturedEvents)
         (s : Sink) (lv rv : any),
    canonical_symbol (p_op p) = None ->
    p_left p = Some l -> p_right p = Some r ->
    Value l evs = ok lv -> Value r evs = ok rv ->
    verdict p evs s = PredicateResultNegative /\
    logged p evs =
      ["[sase:operatorPredicate] Unhandled op " ++ fmt_uint (p_op p)
       ++ " for " ++ QueryText p].
Proof.
  intros p l r evs s lv rv Hu Hl Hr Vl Vr.
  assert (Hres : leftRightVals evs (p_left p) (p_right p) = ok (lv, rv))
    by (rewrite Hl, Hr; now apply leftRightVals_ok).
  unfold verdict, result_of, logged, sink_after.
  rewrite !(Evaluate_unknown_op p evs _ lv rv Hu Hres). split; reflexivity.
Qed.

Lemma unknown_operator_negative_witness :
  (canonical_symbol (p_op (pred five five 200%N)) = None /\
   Value five no_events = ok (num 5)) /\
  verdict (pred five five 200%N) no_events [] = PredicateResultNegative /\
  logged (pred five five 200%N) no_events =
    ["[sase:operatorPredicate] Unhandled op 200 for 5  5"].
Proof.
  split; [split; reflexivity |].
  exact (unknown_operator_negative (pred five five 200%N) five five no_events []
           (num 5) (num 5) eq_refl eq_refl eq_refl eq_refl eq_refl).
Defined.

(* ===================================================================== *)
(** ** Equality and ordering, from one operator to another *)
(* ===================================================================== *)

Lemma SFcompare_antisym (a b : float64) :
  SFcompare b a = option_map CompOpp (SFcompare a b).
Proof.
  destruct a as [sa | sa | | sa ma ea], b as [sb | sb | | sb mb eb];
    simpl; try reflexivity;
    try (destruct sa; reflexivity); try (destruct sb; reflexivity);
    try (destruct sa, sb; reflexivity).
  fold (Pos.compare ma mb). fold (Pos.compare mb ma).
  rewrite (Z.compare_antisym ea eb), (Pos.compare_antisym ma mb).
  destruct sa, sb; try reflexivity;
    destruct (Z.compare ea eb); simpl; try reflexivity;
    destruct (Pos.compare ma mb); reflexivity.
Qed.

Lemma float64_gt_lt (a b : float64) : float64_gt a b = float64_lt b a.
Proof.
  unfold float64_gt, float64_lt, SFltb. rewrite (SFcompare_antisym a b).
  destruct (SFcompare a b) as [[| |] |]; reflexivity.
Qed.

Lemma float64_ge_le (a b : float64) : float64_ge a b = float64_le b a.
Proof.
  unfold float64_ge, float64_le, SFleb. rewrite (SFcompare_antisym a b).
  destruct (SFcompare a b) as [[| |] |]; reflexivity.
Qed.

Lemma float64_eq_sym (a b : float64) : float64_eq a b = float64_eq b a.
Proof.
  unfold float64_eq, SFeqb. rewrite (SFcompare_antisym a b).
  destruct (SFcompare a b) as [[| |] |]; reflexivity.
Qed.

Lemma DeepEqual_sym (v w : any) : DeepEqual v w = DeepEqual w v.
Proof.
  destruct v, w; simpl; try reflexivity.
  - now destruct b, b0.
  - apply Z.eqb_sym.
  - apply float64_eq_sym.
  - apply String.eqb_sym.
Qed.

(** X5: when both operands resolve, [==] and [!=] give opposite verdicts:
    one of them is [PredicateResultPositive] and the other
    [PredicateResultNegative]. *)
Theorem ne_negates_eq :
  forall (l r : value) (evs : CapturedEvents) (s : Sink) (lv rv : any),
    Value l evs = ok lv -> Value r evs = ok rv ->
    (verdict (pred l r opEq) evs s = PredicateResultPositive /\
     verdict (pred l r opNe) evs s = PredicateResultNegative) \/
    (verdict (pred l r opEq) evs s = PredicateResultNegative /\
     verdict (pred l r opNe) evs s = PredicateResultPositive).
Proof.
  intros l r evs s lv rv Hl Hr.
  rewrite (verdict_opEq l r evs s lv rv Hl Hr),
          (verdict_opNe l r evs s lv rv Hl Hr).
  destruct (DeepEqual lv rv); [left | right]; split; reflexivity.
Qed.

Lemma ne_negates_eq_witness :
  (Value a_x (a_has (VString "ten")) = ok (VString "ten") /\
   Value five (a_has (VString "ten")) = ok (num 5)) /\
  ((verdict (pred a_x five opEq) (a_has (VString "ten")) []
    = PredicateResultPositive /\
    verdict (pred a_x five opNe) (a_has (VString "ten")) []
    = PredicateResultNegative) \/
   (verdict (pred a_x five opEq) (a_has (VString "ten")) []
    = PredicateResultNegative /\
    verdict (pred a_x five opNe) (a_has (VString "ten")) []
    = PredicateResultPositive)).
Proof.
  split; [split; reflexivity |].
  exact (ne_negates_eq a_x five (a_has (VString "ten")) []
           (VString "ten") (num 5) eq_refl eq_refl).
Defined.

(** X6: when both operands resolve, exchanging them changes the verdict of
    neither [==] nor [!=]. *)
Theorem equality_symmetric :
  forall (l r : value) (evs : CapturedEvents) (s : Sink) (lv rv : any),
    Value l evs = ok lv -> Value r evs = ok rv ->
    verdict (pred l r opEq) evs s = verdict (pred r l opEq) evs s /\
    verdict (pred l r opNe) evs s = verdict (pred r l opNe) evs s.
Proof.
  intros l r evs s lv rv Hl Hr.
  rewrite (verdict_opEq l r evs s lv rv Hl Hr),
          (verdict_opEq r l evs s rv lv Hr Hl),
          (verdict_opNe l r evs s lv rv Hl Hr),
          (verdict_opNe r l evs s rv lv Hr Hl),
          (DeepEqual_sym rv lv).
  split; reflexivity.
Qed.

Lemma equality_symmetric_witness :
  (Value a_x (a_and_c (num 5) (num 5)) = ok (num 5) /\
   Value c_x (a_and_c (num 5) (num 5)) = ok (num 5)) /\
  verdict (pred a_x c_x opEq) (a_and_c (num 5) (num 5)) []
  = verdict (pred c_x a_x opEq) (a_and_c (num 5) (num 5)) [].
Proof.
  split; [split; reflexivity |].
  exact (proj1 (equality_symmetric a_x c_x (a_and_c (num 5) (num 5)) []
                  (num 5) (num 5) eq_refl eq_refl)).
Defined.

(** X7: when both operands resolve, [l > r] has the verdict of [r < l] and
    [l >= r] that of [r <= l], whatever the resolved values are. *)
Theorem ordering_duality :
  forall (l r : value) (evs : CapturedEvents) (s : Sink) (lv rv : any),
    Value l evs = ok lv -> Value r evs = ok rv ->
    verdict (pred l r opGt) evs s = verdict (pred r l opLt) evs s /\
    verdict (pred l r opGe) evs s = verdict (pred r l opLe) evs s.
Proof.
  intros l r evs s lv rv Hl Hr.
  rewrite (verdict_ordering l r evs s lv rv Hl Hr opGt),
          (verdict_ordering r l evs s rv lv Hr Hl opLt),
          (verdict_ordering l r evs s lv rv Hl Hr opGe),
          (verdict_ordering r l evs s rv lv Hr Hl opLe)
    by (simpl; tauto).
  unfold comparison_of. simpl.
  destruct (assert_float64 lv) as [a |], (assert_float64 rv) as [b |];
    try (split; reflexivity).
  now rewrite float64_gt_lt, float64_ge_le.
Qed.

Lemma ordering_duality_witness :
  (Value a_x (a_has (num 10)) = ok (num 10) /\
   Value five (a_has (num 10)) = ok (num 5)) /\
  verdict (pred a_x five opGt) (a_has (num 10)) []
  = verdict (pred five a_x opLt) (a_has (num 10)) [] /\
  verdict (pred a_x five opGe) (a_has (num 10)) []
  = verdict (pred five a_x opLe) (a_has (num 10)) [].
Proof.
  split; [split; reflexivity |].
  exact (ordering_duality a_x five (a_has (num 10)) []
           (num 10) (num 5) eq_refl eq_refl).
Defined.

(** X8: for two resolved float64 operands, [>=] is
    [PredicateResultPositive] exactly when [>] or [==] is, and [<=] exactly
    when [<] or [==] is; when neither operand is NaN, [>=] is
    [PredicateResultPositive] exactly when [<] is
    [PredicateResultNegative], and [<=] exactly when [>] is. *)
Theorem ge_le_decomposition :
  forall (l r : value) (evs : CapturedEvents) (s : Sink) (a b : float64),
    Value l evs = ok (VFloat64 a) ->
    Value r evs = ok (VFloat64 b) ->
    (verdict (pred l r opGe) evs s = PredicateResultPositive <->
     verdict (pred l r opGt) evs s = PredicateResultPositive \/
     verdict (pred l r opEq) evs s = PredicateResultPositive) /\
    (verdict (pred l r opLe) evs s = PredicateResultPositive <->
     verdict (pred l r opLt) evs s = PredicateResultPositive \/
     verdict (pred l r opEq) evs s = PredicateResultPositive) /\
    (is_nan a = false -> is_nan b = false ->
     (verdict (pred l r opGe) evs s = PredicateResultPositive <->
      verdict (pred l r opLt) evs s = PredicateResultNegative) /\
     (verdict (pred l r opLe) evs s = PredicateResultPositive <->
      verdict (pred l r opGt) evs s = PredicateResultNegative)).
Proof.
  intros l r evs s a b Hl Hr.
  rewrite (verdict_ordering l r evs s _ _ Hl Hr opGt),
          (verdict_ordering l r evs s _ _ Hl Hr opLt),
          (verdict_ordering l r evs s _ _ Hl Hr opGe),
          (verdict_ordering l r evs s _ _ Hl Hr opLe)
    by (simpl; tauto).
  rewrite (verdict_opEq l r evs s _ _ Hl Hr).
  unfold comparison_of, float64_gt, float64_lt, float64_ge, float64_le,
    SFltb, SFleb. simpl. unfold float64_eq, SFeqb.
  split; [| split].
  - destruct (SFcompare a b) as [[| |] |]; intuition discriminate.
  - destruct (SFcompare a b) as [[| |] |]; intuition discriminate.
  - intros Na Nb. destruct (SFcompare_defined a b Na Nb) as [c ->].
    destruct c; intuition discriminate.
Qed.

Lemma ge_le_decomposition_witness :
  (Value a_x (a_has (num 5)) = ok (VFloat64 (float64_of_Z 5)) /\
   Value five (a_has (num 5)) = ok (VFloat64 (float64_of_Z 5))) /\
  verdict (pred a_x five opGe) (a_has (num 5)) [] = PredicateResultPositive.
Proof.
  split; [split; reflexivity |].
  apply (proj1 (ge_le_decomposition a_x five (a_has (num 5)) []
                  (float64_of_Z 5) (float64_of_Z 5) eq_refl eq_refl)).
  right. reflexivity.
Defined.

(* ===================================================================== *)
(** ** What an evaluation logs *)
(* ===================================================================== *)

Lemma ret_quiet (a : PredicateResult) : quiet_or_one_line (ret a).
Proof.
  exists a, []. split; [| now left].
  intros s. unfold ret. now rewrite app_nil_r.
Qed.

Lemma positive_if_quiet (b : bool) : quiet_or_one_line (positive_if b).
Proof. destruct b; apply ret_quiet. Qed.

Lemma log_negative_one_line (rest : string) :
  quiet_or_one_line
    (log_Errorf (log_tag ++ rest) ;; ret PredicateResultNegative).
Proof.
  exists PredicateResultNegative, [log_tag ++ rest]. split.
  - intros s. reflexivity.
  - right. split; [reflexivity | now exists rest].
Qed.

Lemma ordering_quiet_or_one_line (p : operatorPredicate) (name : string)
      (cmp : float64 -> float64 -> bool) (lv rv : any) :
  quiet_or_one_line (ordering p name cmp lv rv).
Proof.
  unfold ordering.
  destruct (assert_float64 lv); [destruct (assert_float64 rv) |];
    first [apply positive_if_quiet
          | apply (log_negative_one_line
                     ("Could not compare " ++ name ++ " for non-float64s: "
                      ++ QueryText p))].
Qed.

Lemma Evaluate_quiet_or_one_line (p : operatorPredicate)
      (evs : CapturedEvents) :
  quiet_or_one_line (Evaluate p evs).
Proof.
  unfold Evaluate, operatorPredicate_Predicate, operatorPredicate_Evaluate.
  destruct (leftRightVals evs (p_left p) (p_right p)) as [[lv rv] | [| msg]].
  - repeat match goal with
           | |- quiet_or_one_line (if ?c then _ else _) => destruct c
           end;
      first [apply positive_if_quiet
            | apply ordering_quiet_or_one_line
            | apply (log_negative_one_line
                       ("Unhandled op " ++ fmt_uint (p_op p) ++ " for "
                        ++ QueryText p))].
  - apply ret_quiet.
  - apply (log_negative_one_line
             ("Could not evaluate " ++ QueryText p ++ " left/right: " ++ msg)).
Qed.

(** X9: one evaluation adds to the sink the lines [logged p evs] and
    nothing else; these are at most one line, which begins with the tag of
    the operator predicate; and a verdict other than
    [PredicateResultNegative] is given without logging. *)
Theorem logging_discipline :
  forall (p : operatorPredicate) (evs : CapturedEvents) (s : Sink),
    sink_after (Evaluate p evs) s = (s ++ logged p evs)%list /\
    List.length (logged p evs) <= 1 /\
    Forall (starts_with log_tag) (logged p evs) /\
    (verdict p evs s <> PredicateResultNegative -> logged p evs = []).
Proof.
  intros p evs s.
  destruct (Evaluate_quiet_or_one_line p evs) as (a & lines & H & Hshape).
  unfold logged, verdict, result_of, sink_after. rewrite !H. simpl.
  split; [reflexivity |].
  destruct Hshape as [-> | [-> [rest ->]]].
  - split; [simpl; lia | split; [constructor | reflexivity]].
  - split; [simpl; lia |]. split.
    + constructor; [now exists rest | constructor].
    + intros Hn. now contradiction Hn.
Qed.

Lemma logging_discipline_witness :
  verdict (pred a_x five opGt) (a_has (num 10)) [] <> PredicateResultNegative /\
  logged (pred a_x five opGt) (a_has (num 10)) = [].
Proof.
  assert (H : verdict (pred a_x five opGt) (a_has (num 10)) []
              <> PredicateResultNegative) by discriminate.
  split; [exact H |].
  exact (proj2 (proj2 (proj2
           (logging_discipline (pred a_x five opGt) (a_has (num 10)) []))) H).
Defined.

Lemma logged_resolved_known (l r : value) (evs : CapturedEvents)
      (lv rv : any) (o : op) :
  Value l evs = ok lv -> Value r evs = ok rv ->
  (o = opEq \/ o = opNe -> logged (pred l r o) evs = []) /\
  (In o ordering_ops ->
   (logged (pred l r o) evs <> [] <->
    assert_float64 lv = None \/ assert_float64 rv = None)).
Proof.
  intros Hl Hr.
  assert (Hres := leftRightVals_ok evs l r lv rv Hl Hr).
  split.
  - intros [-> | ->]; unfold logged, sink_after; enter_Evaluate;
      rewrite Hres; simpl; now destruct (DeepEqual lv rv).
  - intros Ho. unfold logged, sink_after. enter_Evaluate. rewrite Hres.
    destruct Ho as [<- | [<- | [<- | [<- | []]]]]; simpl; unfold ordering;
      destruct (assert_float64 lv) as [a |], (assert_float64 rv) as [b |];
      simpl;
      try match goal with
          | |- context [positive_if ?c] => destruct c
          end;
      simpl; split; intros H;
      try discriminate; try tauto; try (now destruct H);
      try (now left); try (now right).
Qed.

(** Logging, by the outcome of the resolution step. *)
Lemma logged_by_resolution :
  forall (p : operatorPredicate) (evs : CapturedEvents),
    logged p evs <> [] <->
    (exists msg,
        leftRightVals evs (p_left p) (p_right p) = fail (errorString msg)) \/
    (exists lv rv,
        leftRightVals evs (p_left p) (p_right p) = ok (lv, rv) /\
        (type_mismatch (p_op p) lv rv \/ canonical_symbol (p_op p) = None)).
Proof.
  intros [pl pr o] evs. simpl p_left. simpl p_right. simpl p_op.
  destruct (leftRightVals evs pl pr) as [[lv rv] | [| msg]] eqn:Hres.
  - destruct (leftRightVals_ok_inv evs _ _ _ _ Hres)
      as (l & r & -> & -> & Hl & Hr).
    change (mkOperatorPredicate (Some l) (Some r) o) with (pred l r o).
    destruct (logged_resolved_known l r evs lv rv o Hl Hr) as [Heq Hord].
    destruct (op_known_or_not o) as [[sym Hs] | [Hu _]].
    + apply canonical_symbol_inv in Hs.
      assert (Ho : (o = opEq \/ o = opNe) \/ In o ordering_ops)
        by (simpl; intuition).
      destruct Ho as [Ho | Ho].
      * rewrite (Heq Ho). split; [congruence |].
        intros [[msg H] | (lv' & rv' & _ & [[Hin _] | Hn])];
          [discriminate | |];
          destruct Ho as [-> | ->]; simpl in *;
          first [discriminate | intuition discriminate].
      * rewrite (Hord Ho). split.
        -- intros H. right. exists lv, rv. split; [reflexivity |].
           left. now split.
        -- intros [[msg H] | (lv' & rv' & [= <- <-] & [[_ H] | Hn])];
             [discriminate | exact H |].
           destruct Hs as [[-> _] | [[-> _] | [[-> _] | [[-> _] | [[-> _] | [-> _]]]]]];
             discriminate.
    + assert (Hr' : leftRightVals evs (p_left (pred l r o)) (p_right (pred l r o))
                    = ok (lv, rv)) by exact Hres.
      unfold logged, sink_after.
      rewrite (Evaluate_unknown_op (pred l r o) evs [] lv rv Hu Hr').
      split; [| discriminate].
      intros _. right. exists lv, rv. split; [reflexivity | now right].
  - unfold logged, sink_after, Evaluate, operatorPredicate_Predicate,
      operatorPredicate_Evaluate. cbn [p_left p_right p_op]. rewrite Hres.
    simpl. split; [congruence |].
    intros [[msg H] | (lv & rv & H & _)]; discriminate.
  - unfold logged, sink_after, Evaluate, operatorPredicate_Predicate,
      operatorPredicate_Evaluate. cbn [p_left p_right p_op]. rewrite Hres.
    split; [| discriminate].
    intros _. left. now exists msg.
Qed.

(** X10: a line is logged exactly when an operand is nil, or the left
    operand fails with an error other than [ErrEventNotFound], or the left
    operand resolves and the right operand fails with such an error, or both
    operands resolve and either an ordering operator meets a value that is
    not a float64 or the operator code is none of the six. *)
Theorem logged_iff_defect :
  forall (p : operatorPredicate) (evs : CapturedEvents),
    logged p evs <> [] <->
    (p_left p = None \/ p_right p = None) \/
    (exists l r,
        p_left p = Some l /\ p_right p = Some r /\
        ((exists msg, Value l evs = fail (errorString msg)) \/
         (exists lv,
             Value l evs = ok lv /\
             ((exists msg, Value r evs = fail (errorString msg)) \/
              (exists rv,
                  Value r evs = ok rv /\
                  (type_mismatch (p_op p) lv rv \/
                   canonical_symbol (p_op p) = None)))))).
Proof.
  intros p evs. rewrite logged_by_resolution. split.
  - intros [[msg H] | (lv & rv & H & D)].
    + apply leftRightVals_fail_inv in H.
      destruct H as [[Hnil _] | (l & r & Hl & Hr & H)]; [now left |].
      right. exists l, r. split; [exact Hl | split; [exact Hr |]].
      destruct H as [H | [[v Hv] H]].
      * left. now exists msg.
      * right. exists v. split; [exact Hv |]. left. now exists msg.
    + apply leftRightVals_ok_inv in H.
      destruct H as (l & r & Hl & Hr & Vl & Vr).
      right. exists l, r. split; [exact Hl | split; [exact Hr |]].
      right. exists lv. split; [exact Vl |]. right. exists rv. now split.
  - intros [Hnil | (l & r & Hl & Hr & H)].
    + left. eexists. now apply leftRightVals_nil.
    + rewrite Hl, Hr.
      destruct H as [[msg H] | (lv & Vl & [[msg H] | (rv & Vr & D)])].
      * left. exists msg. now apply leftRightVals_left_fail.
      * left. exists msg. now apply leftRightVals_right_fail with (v := lv).
      * right. exists lv, rv. split; [now apply leftRightVals_ok | exact D].
Qed.

(* ===================================================================== *)
(** ** Rendering an unknown operator, and what Uncertain tells *)
(* ===================================================================== *)

(** X11: for an operator code that is none of the six, no symbol is
    written: the query text is the left text and the space, followed by
    the space and the right text when the right operand is non-nil. *)
Theorem QueryText_unknown_op :
  forall (p : operatorPredicate),
    canonical_symbol (p_op p) = None ->
    QueryText p = operand_text (p_left p) ++ " " ++ right_part (p_right p) /\
    (forall l r, p_left p = Some l -> p_right p = Some r ->
                 QueryText p = QueryText l ++ "  " ++ QueryText r).
Proof.
  intros [pl pr o] Hu. simpl in Hu. simpl p_left. simpl p_right.
  assert (F : QueryText (mkOperatorPredicate pl pr o)
              = operand_text pl ++ " " ++ right_part pr).
  { simpl. unfold operatorPredicate_QueryText. simpl.
    rewrite (opSymbol_unknown _ o Hu). unfold WriteString, WriteRune.
    destruct pl as [l |], pr as [r |]; simpl;
      rewrite ?append_assoc, ?append_nil_r; reflexivity. }
  split; [exact F |].
  intros l r [= ->] [= ->]. rewrite F. reflexivity.
Qed.

Lemma QueryText_unknown_op_witness :
  canonical_symbol (p_op (pred a_x five 6%N)) = None /\
  QueryText (pred a_x five 6%N) = "a.x  5".
Proof.
  split; [reflexivity |].
  exact (proj2 (QueryText_unknown_op (pred a_x five 6%N) eq_refl)
           a_x five eq_refl eq_refl).
Defined.

(** X12: when the operands fail with [ErrEventNotFound] only for an alias
    of their own that has no event, a [PredicateResultUncertain] verdict
    shows an alias of [usedAliases] absent from the binding. *)
Theorem uncertain_shows_absent_alias :
  forall (p : operatorPredicate) (evs : CapturedEvents) (s : Sink),
    (forall v, p_left p = Some v \/ p_right p = Some v ->
               not_found_means_absent v evs) ->
    verdict p evs s = PredicateResultUncertain ->
    exists a, In a (usedAliases p) /\ absent a evs.
Proof.
  intros [pl pr o] evs s Hc Hu. simpl in Hc.
  destruct (leftRightVals evs pl pr) as [[lv rv] | err] eqn:Hres.
  - exfalso. revert Hu. now apply verdict_resolved_decided with (lv := lv) (rv := rv).
  - destruct err as [| msg].
    + apply leftRightVals_fail_inv in Hres.
      destruct Hres as [[_ Habs] | (l & r & -> & -> & H)]; [discriminate |].
      assert (A : exists a, (In a (usedAliases l) \/ In a (usedAliases r))
                            /\ absent a evs).
      { destruct H as [H | [_ H]].
        - destruct (Hc l (or_introl eq_refl) H) as (a & Ha & Hab). eauto.
        - destruct (Hc r (or_intror eq_refl) H) as (a & Ha & Hab). eauto. }
      destruct A as (a & Ha & Hab). exists a. split; [| exact Hab].
      simpl. unfold operatorPredicate_usedAliases. simpl.
      apply in_or_app. exact Ha.
    + rewrite (verdict_other_error (mkOperatorPredicate pl pr o) evs s _ Hres)
        in Hu by discriminate.
      discriminate.
Qed.

Lemma attributeValue_not_found_means_absent (alias field : string)
      (evs : CapturedEvents) :
  not_found_means_absent (attributeValue alias field) evs.
Proof.
  unfold not_found_means_absent. simpl.
  destruct (lookup alias evs) as [ev |] eqn:Hl.
  - destruct (assoc field ev); discriminate.
  - intros _. exists alias. split; [now left | exact Hl].
Qed.

Lemma uncertain_shows_absent_alias_witness :
  ((forall v, p_left (pred a_x c_x opEq) = Some v \/
              p_right (pred a_x c_x opEq) = Some v ->
              not_found_means_absent v (a_has (num 5))) /\
   verdict (pred a_x c_x opEq) (a_has (num 5)) [] = PredicateResultUncertain) /\
  exists a, In a (usedAliases (pred a_x c_x opEq)) /\ absent a (a_has (num 5)).
Proof.
  assert (Hc : forall v, p_left (pred a_x c_x opEq) = Some v \/
                         p_right (pred a_x c_x opEq) = Some v ->
                         not_found_means_absent v (a_has (num 5))).
  { intros v [[= <-] | [= <-]]; apply attributeValue_not_found_means_absent. }
  split; [split; [exact Hc | reflexivity] |].
  exact (uncertain_shows_absent_alias (pred a_x c_x opEq) (a_has (num 5)) []
           Hc eq_refl).
Defined.

(* ===================================================================== *)
(** ** The verdict reads the operands through their values only *)
(* ===================================================================== *)

Lemma verdict_by_resolution (p p' : operatorPredicate)
      (evs evs' : CapturedEvents) (s s' : Sink) :
  p_op p = p_op p' ->
  leftRightVals evs (p_left p) (p_right p)
  = leftRightVals evs' (p_left p') (p_right p') ->
  verdict p evs s = verdict p' evs' s'.
Proof.
  intros Ho Hres.
  unfold verdict, result_of, Evaluate, operatorPredicate_Predicate,
    operatorPredicate_Evaluate.
  rewrite Hres, Ho.
  destruct (leftRightVals evs' (p_left p') (p_right p')) as [[lv rv] | [| msg]];
    [| reflexivity | reflexivity].
  repeat match goal with
         | |- context [if ?c then _ else _] => destruct c
         end;
    unfold ordering, positive_if;
    repeat match goal with
           | |- context [match assert_float64 ?v with _ => _ end] =>
               destruct (assert_float64 v)
           | |- context [if ?c then _ else _] => destruct c
           end;
    reflexivity.
Qed.

(** X13: two predicates with the same operator whose operands resolve
    alike, each under its own binding and from its own sink, get the same
    verdict: neither the text nor the aliases of the operands, nor the rest
    of the binding, nor the sink, takes part in it. *)
Theorem verdict_depends_on_values_only :
  forall (l r l' r' : value) (o : op) (evs evs' : CapturedEvents)
         (s s' : Sink),
    Value l evs = Value l' evs' ->
    Value r evs = Value r' evs' ->
    verdict (pred l r o) evs s = verdict (pred l' r' o) evs' s'.
Proof.
  intros l r l' r' o evs evs' s s' Hl Hr.
  apply verdict_by_resolution; [reflexivity |].
  simpl. rewrite Hl, Hr. reflexivity.
Qed.

Lemma verdict_depends_on_values_only_witness :
  (Value a_x (a_has (num 10)) = Value c_x (a_and_c (num 3) (num 10)) /\
   Value five (a_has (num 10)) = Value five (a_and_c (num 3) (num 10))) /\
  verdict (pred a_x five opGt) (a_has (num 10)) []
  = verdict (pred c_x five opGt) (a_and_c (num 3) (num 10)) ["earlier line"].
Proof.
  split; [split; reflexivity |].
  exact (verdict_depends_on_values_only a_x five c_x five opGt
           (a_has (num 10)) (a_and_c (num 3) (num 10)) [] ["earlier line"]
           eq_refl eq_refl).
Defined.

(* ===================================================================== *)
(** ** Evaluation over a mutable heap *)
(* ===================================================================== *)

Section StatefulRun.

Variables (M : stateful.Machine) (p : stateful.Ptr M) (evs : stateful.Evs M).

Let same : stateful.Heap M -> stateful.Heap M -> Prop :=
  stateful.unchanged M p evs.

Hypothesis emit_keeps :
  forall line h, same h (stateful.emit M line h).

Hypothesis operands_behave :
  forall h v,
    stateful.p_left (stateful.load M p h) = Some v \/
    stateful.p_right (stateful.load M p h) = Some v ->
    stateful.well_behaved M p evs v.

Lemma unchanged_refl (h : stateful.Heap M) : same h h.
Proof. split; reflexivity. Qed.

Lemma unchanged_trans (h1 h2 h3 : stateful.Heap M) :
  same h1 h2 -> same h2 h3 -> same h1 h3.
Proof.
  intros [L1 D1] [L2 D2]. split; [now rewrite L2 | now rewrite D2].
Qed.

Lemma unchanged_sym (h1 h2 : stateful.Heap M) : same h1 h2 -> same h2 h1.
Proof. intros [L D]. split; symmetry; assumption. Qed.

Lemma leftRightVals_keeps (l r : option (stateful.value _ _))
      (h : stateful.Heap M) :
  (forall v, l = Some v \/ r = Some v -> stateful.well_behaved M p evs v) ->
  same h (snd (stateful.leftRightVals M evs l r h)).
Proof.
  intros Hwb. unfold stateful.leftRightVals.
  destruct l as [l |], r as [r |]; try apply unchanged_refl.
  destruct (Hwb l (or_introl eq_refl)) as (Vl & _ & _).
  destruct (Hwb r (or_intror eq_refl)) as (Vr & _ & _).
  specialize (Vl h).
  destruct (stateful.Value l evs h) as [lres h1]. simpl in Vl.
  destruct lres as [lv | err]; [| exact Vl].
  specialize (Vr h1).
  destruct (stateful.Value r evs h1) as [rres h2]. simpl in Vr.
  destruct rres; simpl; now apply unchanged_trans with (h2 := h1).
Qed.

Lemma leftRightVals_same (l r : option (stateful.value _ _))
      (h1 h2 : stateful.Heap M) :
  (forall v, l = Some v \/ r = Some v -> stateful.well_behaved M p evs v) ->
  stateful.deref M evs h1 = stateful.deref M evs h2 ->
  fst (stateful.leftRightVals M evs l r h1)
  = fst (stateful.leftRightVals M evs l r h2).
Proof.
  intros Hwb Hd. unfold stateful.leftRightVals.
  destruct l as [l |], r as [r |]; try reflexivity.
  destruct (Hwb l (or_introl eq_refl)) as (Vl & _ & Dl).
  destruct (Hwb r (or_intror eq_refl)) as (_ & _ & Dr).
  assert (E := Dl h1 h2 Hd).
  assert (K1 := Vl h1). assert (K2 := Vl h2).
  destruct (stateful.Value l evs h1) as [lres1 k1].
  destruct (stateful.Value l evs h2) as [lres2 k2].
  simpl in E, K1, K2. subst lres2.
  destruct lres1 as [lv | err]; [| reflexivity].
  assert (Hd' : stateful.deref M evs k1 = stateful.deref M evs k2).
  { destruct K1 as [_ ->], K2 as [_ ->]. exact Hd. }
  assert (E' := Dr k1 k2 Hd').
  destruct (stateful.Value r evs k1) as [rres1 j1].
  destruct (stateful.Value r evs k2) as [rres2 j2].
  simpl in E'. subst rres2. destruct rres1; reflexivity.
Qed.

Lemma QueryText_right_keeps (h : stateful.Heap M) (buf : Buffer) :
  same h (snd (match stateful.p_right (stateful.load M p h) with
               | Some r =>
                   let (text, h0) := stateful.QueryText r h in
                   (WriteString (WriteRune buf " "%char) text, h0)
               | None => (buf, h)
               end)).
Proof.
  destruct (stateful.p_right (stateful.load M p h)) as [r |] eqn:Er;
    [| apply unchanged_refl].
  destruct (operands_behave h r (or_intror Er)) as (_ & Q & _).
  specialize (Q h). destruct (stateful.QueryText r h) as [text h0].
  exact Q.
Qed.

Lemma QueryText_keeps (h : stateful.Heap M) :
  same h (snd (stateful.operatorPredicate_QueryText M p h)).
Proof.
  unfold stateful.operatorPredicate_QueryText.
  destruct (stateful.p_left (stateful.load M p h)) as [l |] eqn:El.
  - destruct (operands_behave h l (or_introl El)) as (_ & Q & _).
    specialize (Q h). destruct (stateful.QueryText l h) as [text h0].
    simpl in Q. apply unchanged_trans with (h2 := h0); [exact Q |].
    apply QueryText_right_keeps.
  - apply QueryText_right_keeps.
Qed.

Lemma log_after_QueryText_keeps (h : stateful.Heap M)
      (line : string -> string) :
  same h (snd (let (text, h0) := stateful.operatorPredicate_QueryText M p h in
               (PredicateResultNegative, stateful.emit M (line text) h0))).
Proof.
  assert (Q := QueryText_keeps h).
  destruct (stateful.operatorPredicate_QueryText M p h) as [text h0].
  simpl in *. apply unchanged_trans with (h2 := h0); [exact Q | apply emit_keeps].
Qed.

(** Every branch after the resolution: the heap it leaves, and the verdict
    as a function of the resolved values and of the operator code. *)
Ltac split_dispatch :=
  unfold stateful.ordering, stateful.positive_if;
  repeat match goal with
         | |- context [if ?c then _ else _] => destruct c
         | |- context [match assert_float64 ?v with _ => _ end] =>
             destruct (assert_float64 v)
         end.

Lemma Evaluate_keeps (h : stateful.Heap M) :
  same h (snd (stateful.operatorPredicate_Evaluate M p evs h)).
Proof.
  unfold stateful.operatorPredicate_Evaluate.
  assert (K := leftRightVals_keeps
                 (stateful.p_left (stateful.load M p h))
                 (stateful.p_right (stateful.load M p h)) h
                 (operands_behave h)).
  destruct (stateful.leftRightVals M evs _ _ h) as [vals k]. simpl in K.
  apply unchanged_trans with (h2 := k); [exact K |].
  destruct vals as [[lv rv] | [| msg]].
  - split_dispatch;
      first [apply unchanged_refl
            | apply (log_after_QueryText_keeps k (fun text => _))].
  - apply unchanged_refl.
  - apply (log_after_QueryText_keeps k (fun text => _)).
Qed.

Lemma Evaluate_same (h1 h2 : stateful.Heap M) :
  same h1 h2 ->
  fst (stateful.operatorPredicate_Evaluate M p evs h1)
  = fst (stateful.operatorPredicate_Evaluate M p evs h2).
Proof.
  intros [L D]. unfold stateful.operatorPredicate_Evaluate.
  rewrite L.
  assert (K1 := leftRightVals_keeps _ _ h1 (operands_behave h1)).
  assert (K2 := leftRightVals_keeps _ _ h2 (operands_behave h1)).
  assert (E := leftRightVals_same _ _ h1 h2 (operands_behave h1) (eq_sym D)).
  destruct (stateful.leftRightVals M evs _ _ h1) as [vals1 k1].
  destruct (stateful.leftRightVals M evs _ _ h2) as [vals2 k2].
  simpl in K1, K2, E. subst vals2.
  assert (O : stateful.p_op (stateful.load M p k2)
              = stateful.p_op (stateful.load M p k1)).
  { destruct K1 as [-> _], K2 as [-> _]. now rewrite L. }
  rewrite O.
  destruct vals1 as [[lv rv] | [| msg]].
  - split_dispatch; try reflexivity;
      destruct (stateful.operatorPredicate_QueryText M p k1);
      destruct (stateful.operatorPredicate_QueryText M p k2); reflexivity.
  - reflexivity.
  - destruct (stateful.operatorPredicate_QueryText M p k1);
      destruct (stateful.operatorPredicate_QueryText M p k2); reflexivity.
Qed.

End StatefulRun.

(** C9: [Evaluate] run on a heap, with operands whose methods leave the
    predicate and the binding alone and resolve as the events of the
    binding decide, and a logger that leaves them alone too: from two heaps
    holding the same predicate and the same binding the verdict is the same;
    the heap left by a run holds the predicate and the binding unchanged;
    and a second run on that heap gives the verdict of the first. *)
Theorem Evaluate_deterministic_stateless :
  forall (M : stateful.Machine) (p : stateful.Ptr M) (evs : stateful.Evs M),
    (forall line h,
        stateful.unchanged M p evs h (stateful.emit M line h)) ->
    (forall h v,
        stateful.p_left (stateful.load M p h) = Some v \/
        stateful.p_right (stateful.load M p h) = Some v ->
        stateful.well_behaved M p evs v) ->
    forall h1 h2 : stateful.Heap M,
      stateful.unchanged M p evs h1 h2 ->
      fst (stateful.operatorPredicate_Evaluate M p evs h1)
      = fst (stateful.operatorPredicate_Evaluate M p evs h2) /\
      stateful.unchanged M p evs h1
        (snd (stateful.operatorPredicate_Evaluate M p evs h1)) /\
      fst (stateful.operatorPredicate_Evaluate M p evs
             (snd (stateful.operatorPredicate_Evaluate M p evs h1)))
      = fst (stateful.operatorPredicate_Evaluate M p evs h1).
Proof.
  intros M p evs He Ho h1 h2 H12.
  split; [now apply Evaluate_same |].
  split; [now apply Evaluate_keeps |].
  symmetry. apply Evaluate_same; [exact Ho |].
  now apply Evaluate_keeps.
Qed.

Lemma counting_well_behaved (l r : value) (o : op) (v : value) :
  stateful.well_behaved (stateful.counting_machine l r o) tt tt
    (stateful.counting v).
Proof.
  repeat split; try (destruct h as [[b n] sink]; reflexivity).
  intros h1 h2 D. simpl in *. now rewrite D.
Qed.

Lemma Evaluate_deterministic_stateless_witness :
  ((forall line h,
       stateful.unchanged (stateful.counting_machine a_x five opGt) tt tt h
         (stateful.emit (stateful.counting_machine a_x five opGt) line h)) /\
   (forall h v,
       stateful.p_left
         (stateful.load (stateful.counting_machine a_x five opGt) tt h) = Some v \/
       stateful.p_right
         (stateful.load (stateful.counting_machine a_x five opGt) tt h) = Some v ->
       stateful.well_behaved (stateful.counting_machine a_x five opGt) tt tt v) /\
   stateful.unchanged (stateful.counting_machine a_x five opGt) tt tt
     (a_has (num 10), 0, []) (a_has (num 10), 7, ["earlier line"])) /\
  stateful.operatorPredicate_Evaluate (stateful.counting_machine a_x five opGt)
    tt tt (a_has (num 10), 0, [])
  = (PredicateResultPositive, (a_has (num 10), 2, [])) /\
  fst (stateful.operatorPredicate_Evaluate
         (stateful.counting_machine a_x five opGt) tt tt
         (a_has (num 10), 0, []))
  = fst (stateful.operatorPredicate_Evaluate
           (stateful.counting_machine a_x five opGt) tt tt
           (a_has (num 10), 7, ["earlier line"])).
Proof.
  assert (He : forall line h,
             stateful.unchanged (stateful.counting_machine a_x five opGt) tt tt h
               (stateful.emit (stateful.counting_machine a_x five opGt) line h)).
  { intros line [[b n] sink]. split; reflexivity. }
  assert (Ho : forall h v,
             stateful.p_left
               (stateful.load (stateful.counting_machine a_x five opGt) tt h)
             = Some v \/
             stateful.p_right
               (stateful.load (stateful.counting_machine a_x five opGt) tt h)
             = Some v ->
             stateful.well_behaved (stateful.counting_machine a_x five opGt)
               tt tt v).
  { intros h v [[= <-] | [= <-]]; apply counting_well_behaved. }
  assert (Hu : stateful.unchanged (stateful.counting_machine a_x five opGt)
                 tt tt (a_has (num 10), 0, [])
                 (a_has (num 10), 7, ["earlier line"])).
  { split; reflexivity. }
  split; [split; [exact He | split; [exact Ho | exact Hu]] |].
  split; [reflexivity |].
  exact (proj1 (Evaluate_deterministic_stateless
                  (stateful.counting_machine a_x five opGt) tt tt He Ho
                  (a_has (num 10), 0, []) (a_has (num 10), 7, ["earlier line"])
                  Hu)).
Defined.

(* ===================================================================== *)
(** ** The two embeddings agree *)
(* ===================================================================== *)

Lemma pure_machine_leftRightVals (evs : CapturedEvents) (l r : option value)
      (s : Sink) :
  stateful.leftRightVals stateful.pure_machine evs
    (option_map stateful.lift_value l) (option_map stateful.lift_value r) s
  = (leftRightVals evs l r, s).
Proof.
  destruct l as [l |], r as [r |]; simpl; try reflexivity.
  destruct (Value l evs); [| reflexivity].
  destruct (Value r evs); reflexivity.
Qed.

Lemma pure_machine_QueryText (p : operatorPredicate) (s : Sink) :
  stateful.operatorPredicate_QueryText stateful.pure_machine p s
  = (QueryText p, s).
Proof.
  destruct p as [[l |] [r |] o]; reflexivity.
Qed.

(** On the machine without effects other than logging, the run over the
    heap is the run of the pure embedding. *)
Lemma pure_machine_Evaluate (p : operatorPredicate) (evs : CapturedEvents)
      (s : Sink) :
  stateful.operatorPredicate_Evaluate stateful.pure_machine p evs s
  = Evaluate p evs s.
Proof.
  unfold stateful.operatorPredicate_Evaluate, Evaluate,
    operatorPredicate_Predicate, operatorPredicate_Evaluate.
  change (stateful.load stateful.pure_machine p s)
    with (stateful.lift_predicate p).
  unfold stateful.lift_predicate. cbn [stateful.p_left stateful.p_right].
  rewrite pure_machine_leftRightVals.
  change (stateful.p_op (stateful.load stateful.pure_machine p s))
    with (p_op p).
  destruct (leftRightVals evs (p_left p) (p_right p)) as [[lv rv] | [| msg]].
  - unfold stateful.ordering, ordering, stateful.positive_if, positive_if.
    repeat match goal with
           | |- context [if N.eqb ?a ?b then _ else _] => destruct (N.eqb a b)
           end;
      repeat match goal with
             | |- context [match assert_float64 ?v with _ => _ end] =>
                 destruct (assert_float64 v)
             | |- context [if ?c then _ else _] => destruct c
             end;
      rewrite ?pure_machine_QueryText; reflexivity.
  - reflexivity.
  - rewrite pure_machine_QueryText. reflexivity.
Qed.

(** Why the operands must resolve as the binding decides: with an operand
    that resolves to the number of calls made, the predicate and the
    binding are left unchanged and yet the second run disagrees with the
    first. *)
Example verdict_follows_misbehaving_operand :
  stateful.operatorPredicate_Evaluate
    (stateful.machine_of stateful.calls_so_far
       (stateful.counting (literalValue (VInt 0) "0")) opEq)
    tt tt (no_events, 0, [])
  = (PredicateResultPositive, (no_events, 2, [])) /\
  stateful.operatorPredicate_Evaluate
    (stateful.machine_of stateful.calls_so_far
       (stateful.counting (literalValue (VInt 0) "0")) opEq)
    tt tt (no_events, 2, [])
  = (PredicateResultNegative, (no_events, 4, [])).
Proof. split; reflexivity. Qed.

(** The heap-passing run on the sample predicate with a value that is not
    a float64: the verdict, the two calls to [Value], the two calls to
    [QueryText] and the line logged. *)
Example stateful_scenario_not_numeric :
  stateful.operatorPredicate_Evaluate (stateful.counting_machine a_x five opGt)
    tt tt (a_has (VString "ten"), 0, [])
  = (PredicateResultNegative,
     (a_has (VString "ten"), 4,
      ["[sase:operatorPredicate] Could not compare gt for non-float64s: a.x > 5"])).
Proof. reflexivity. Qed.
